(** * The chat model of [packages/ai-chat/src/common/chat-model.ts]

    A shallow embedding of the response-content classes, of the response
    aggregator [ChatResponseImpl], of the response life cycle
    [MutableChatResponseModel], of [ChangeSetImpl] and of the change-set part
    of [MutableChatModel], followed by the properties proved about them.

    Conventions of the embedding.
    - A TypeScript class becomes a module holding a record [t] of the
      class's fields and one function per method; a method that mutates
      [this] returns the new [this].
    - [undefined] is [None]; a property of type [T | undefined] is an
      [option T]. Where the source spreads or assigns an object whose
      properties are optional, a property is a [JS.Property]: absent, or
      present with a value that may be [undefined].
    - An [Emitter] is observed through what it fired: a counter for
      [Emitter<void>], the list of fired events for [Emitter<ChatChangeEvent>].
    - Content elements are values: every fragment handed to [addContent] is
      taken to be an object of its own, so two positions of a content
      sequence never share one object. *)

From Stdlib Require Import String Ascii List Bool Arith Lia.
From Stdlib Require Import ZArith.
From stdpp Require Import base decidable option list strings gmap.

Local Open Scope string_scope.
Local Open Scope list_scope.

(** ** JavaScript primitives used by the source *)

Module JS.

(** The line feed written [\n] in the source. *)
Definition LF : string :=
  String (Ascii false true false true false false false false) EmptyString.

(** The double quote character, for string literals of the source that
    contain one. *)
Definition DQ : string :=
  String (Ascii false true false false false true false false) EmptyString.

(** String conversion of a template literal [`${x}`] and of [+=] on a
    string: [undefined] is rendered as the text [undefined]. *)
Definition template (x : option string) : string :=
  match x with
  | Some s => s
  | None => "undefined"
  end.

(** [x ?? d] *)
Definition nullish (x : option string) (d : string) : string :=
  match x with
  | Some s => s
  | None => d
  end.

(** Truthiness of a [string | undefined]: only a non-empty string is
    truthy. *)
Definition truthy (x : option string) : bool :=
  match x with
  | Some s => negb (String.eqb s "")
  | None => false
  end.

(** [Array.prototype.join]: an [undefined] element is rendered as the
    empty string, the separator goes between consecutive elements. *)
Fixpoint join (sep : string) (l : list (option string)) : string :=
  match l with
  | [] => ""
  | x :: xs =>
      match xs with
      | [] => nullish x ""
      | _ :: _ => nullish x "" +:+ sep +:+ join sep xs
      end
  end.

(** [Array.prototype.splice(start, 1)] for an integer [start]: the index
    where the deletion starts. A negative [start] counts from the end and
    stops at the first index; a [start] beyond the end stops at the end,
    where nothing is left to delete. *)
Definition spliceStart (len : nat) (start : Z) : nat :=
  if (start <? 0)%Z then Z.to_nat (Z.max (Z.of_nat len + start) 0)
  else Nat.min (Z.to_nat start) len.

(** A property of an object literal: absent, or present with a value, which
    may be [undefined]. *)
Inductive Property (A : Type) :=
  | absent
  | present (value : option A).

Arguments absent {A}.
Arguments present {A} value.

(** [o.p]: reading an absent property gives [undefined]. *)
Definition read {A} (p : Property A) : option A :=
  match p with
  | absent => None
  | present value => value
  end.

(** The property [p] of [{ p: d, ...o }], and of [t] after
    [Object.assign(t, o)] when [t.p] was [d]: the property of [o] wins
    whenever it is present, also with the value [undefined]. *)
Definition spread {A} (d : option A) (p : Property A) : option A :=
  match p with
  | absent => d
  | present value => value
  end.

End JS.

(** ** Collaborators that live outside this file *)

(** Modelled from the spec: the class [URI] of [@theia/core], the "resource
    identifier (URI-equivalent)" of a change-set element. The source only
    ever compares two of them through [toString()], so a URI is represented
    by that string. *)
Module URI.
Record t := mk { toString : string }.
End URI.

(** Modelled from the spec: [MarkdownStringImpl] of [@theia/core], the
    "accumulated markup" of formatted and informational content;
    [appendMarkdown] appends the incoming markup to it. *)
Module MarkdownStringImpl.
Record t := mk { value : string }.

Definition appendMarkdown (this : t) (v : string) : t :=
  {| value := value this +:+ v |}.
End MarkdownStringImpl.

(** Modelled from the spec: [CancellationTokenSource] of [@theia/core], the
    "cancellation signal source" owned by a response; [cancel] raises the
    signal, and [isCancellationRequested] reads whether it has been raised. *)
Module CancellationTokenSource.
Record t := mk { isCancellationRequested : bool }.

Definition new : t := {| isCancellationRequested := false |}.

Definition cancel (this : t) : t := {| isCancellationRequested := true |}.
End CancellationTokenSource.

Record Position := { line : nat; character : nat }.

Record Location := { uri : URI.t; position : Position }.

(** ** Content classes *)

Module ErrorChatResponseContentImpl.
(** [_error] is kept as the message of the [Error]. *)
Record t := mk { _error : string }.

Definition kind : string := "error".

Definition asString (this : t) : option string := None.
End ErrorChatResponseContentImpl.

Module TextChatResponseContentImpl.
Record t := mk { _content : string }.

Definition kind : string := "text".

Definition content (this : t) : string := _content this.

Definition asString (this : t) : string := _content this.

Definition asDisplayString (this : t) : option string := Some (asString this).

Definition merge (this next : t) : t * bool :=
  ({| _content := _content this +:+ content next |}, true).
End TextChatResponseContentImpl.

Module MarkdownChatResponseContentImpl.
Record t := mk { _content : MarkdownStringImpl.t }.

Definition kind : string := "markdownContent".

Definition new (content : string) : t :=
  {| _content := MarkdownStringImpl.appendMarkdown (MarkdownStringImpl.mk "") content |}.

Definition content (this : t) : MarkdownStringImpl.t := _content this.

Definition asString (this : t) : string := MarkdownStringImpl.value (_content this).

Definition asDisplayString (this : t) : option string := Some (asString this).

Definition merge (this next : t) : t * bool :=
  ({| _content :=
        MarkdownStringImpl.appendMarkdown (_content this)
          (MarkdownStringImpl.value (content next)) |}, true).
End MarkdownChatResponseContentImpl.

Module InformationalChatResponseContentImpl.
Record t := mk { _content : MarkdownStringImpl.t }.

Definition kind : string := "informational".

Definition new (content : string) : t :=
  {| _content := MarkdownStringImpl.mk content |}.

Definition content (this : t) : MarkdownStringImpl.t := _content this.

Definition asString (this : t) : option string := None.

Definition merge (this next : t) : t * bool :=
  ({| _content :=
        MarkdownStringImpl.appendMarkdown (_content this)
          (MarkdownStringImpl.value (content next)) |}, true).
End InformationalChatResponseContentImpl.

Module CodeChatResponseContentImpl.
Record t := mk {
  _code : string;
  _language : option string;
  _location : option Location
}.

Definition kind : string := "code".

Definition code (this : t) : string := _code this.

Definition asString (this : t) : string :=
  "```" +:+ JS.nullish (_language this) "" +:+ JS.LF +:+ _code this +:+ JS.LF +:+ "```".

Definition merge (this next : t) : t * bool :=
  ({| _code := _code this +:+ code next;
      _language := _language this;
      _location := _location this |}, true).
End CodeChatResponseContentImpl.

Module ToolCallChatResponseContentImpl.
Record t := mk {
  _id : option string;
  _name : option string;
  _arguments : option string;
  _finished : option bool;
  _result : option string
}.

Definition kind : string := "toolCall".

Definition id (this : t) : option string := _id this.
Definition name (this : t) : option string := _name this.
Definition arguments (this : t) : option string := _arguments this.
Definition finished (this : t) : bool :=
  match _finished this with
  | None => false
  | Some b => b
  end.
Definition result (this : t) : option string := _result this.

Definition asString (this : t) : string := "".

Definition asDisplayString (this : t) : string :=
  "Tool call: " +:+ JS.template (_name this) +:+ "("
    +:+ JS.nullish (_arguments this) "" +:+ ")".

Definition merge (this next : t) : t * bool :=
  if decide (id next = id this) then
    ({| _id := _id this; _name := _name this; _arguments := _arguments this;
        _finished := Some (finished next);
        _result := result next |}, true)
  else
    match name next with
    | Some _ => (this, false)
    | None =>
        match arguments next with
        | None => (this, false)
        | Some a =>
            ({| _id := _id this; _name := _name this;
                _arguments := Some (JS.template (_arguments this) +:+ a);
                _finished := _finished this;
                _result := _result this |}, true)
        end
    end.
End ToolCallChatResponseContentImpl.

Module CommandChatResponseContentImpl.
(** A [Command] of [@theia/core] is kept as its [id]; a [CustomCallback]
    as its [label]. *)
Record t := mk {
  command : option string;
  customCallback : option string;
  args : option (list string)
}.

Definition kind : string := "command".

Definition arguments (this : t) : list string :=
  match args this with
  | Some a => a
  | None => []
  end.

Definition asString (this : t) : string :=
  if JS.truthy (command this) then JS.nullish (command this) ""
  else if JS.truthy (customCallback this) then JS.nullish (customCallback this) ""
  else "command".
End CommandChatResponseContentImpl.

Module QuestionResponseContentImpl.
Record option_ := mkOption { text : string; value : option string }.

(** [request] is kept as the id of the owning request; the answer handler
    is invoked by the caller, never by this file, and is left out. *)
Record t := mk {
  question : string;
  options : list option_;
  request : string;
  _selectedOption : option option_
}.

Definition kind : string := "question".

Definition selectedOption (this : t) : option option_ := _selectedOption this.

Definition asString (this : t) : option string :=
  Some ("Question: " +:+ question this +:+ JS.LF +:+
        match selectedOption this with
        | Some o => "Answer: " +:+ text o
        | None => "No answer"
        end).

Definition merge (this : t) : t * bool := (this, false).
End QuestionResponseContentImpl.

(** ** The content interface and its dynamic dispatch *)

(** [ChatResponseContent] is the union of the content classes of the file.
    [HorizontalLayoutChatResponseContentImpl] has the single field
    [_content], the children of the layout. *)
#[warning="-register-all"]
Inductive ChatResponseContent : Type :=
  | ErrorContent (c : ErrorChatResponseContentImpl.t)
  | TextContent (c : TextChatResponseContentImpl.t)
  | MarkdownContent (c : MarkdownChatResponseContentImpl.t)
  | InformationalContent (c : InformationalChatResponseContentImpl.t)
  | CodeContent (c : CodeChatResponseContentImpl.t)
  | ToolCallContent (c : ToolCallChatResponseContentImpl.t)
  | CommandContent (c : CommandChatResponseContentImpl.t)
  | HorizontalLayoutContent (_content : list ChatResponseContent)
  | QuestionContent (c : QuestionResponseContentImpl.t).

Module HorizontalLayoutChatResponseContentImpl.
Definition kind : string := "horizontal".
End HorizontalLayoutChatResponseContentImpl.

(** The properties and methods of a content element, dispatched on its
    class, and the type guards of the namespace [ChatResponseContent]. *)
Module ChatResponseContent.

(** The [kind] property. *)
Definition kind (c : ChatResponseContent) : string :=
  match c with
  | ErrorContent _ => ErrorChatResponseContentImpl.kind
  | TextContent _ => TextChatResponseContentImpl.kind
  | MarkdownContent _ => MarkdownChatResponseContentImpl.kind
  | InformationalContent _ => InformationalChatResponseContentImpl.kind
  | CodeContent _ => CodeChatResponseContentImpl.kind
  | ToolCallContent _ => ToolCallChatResponseContentImpl.kind
  | CommandContent _ => CommandChatResponseContentImpl.kind
  | HorizontalLayoutContent _ => HorizontalLayoutChatResponseContentImpl.kind
  | QuestionContent _ => QuestionResponseContentImpl.kind
  end.

(** The type guards [ChatResponseContent.hasAsString], [hasDisplayString]
    and [hasMerge]: which classes define the method. Every class of the file
    defines [asString]. *)
Definition hasAsString (c : ChatResponseContent) : bool := true.

Definition hasDisplayString (c : ChatResponseContent) : bool :=
  match c with
  | TextContent _ | MarkdownContent _ | ToolCallContent _
  | HorizontalLayoutContent _ => true
  | _ => false
  end.

Definition hasMerge (c : ChatResponseContent) : bool :=
  match c with
  | ErrorContent _ | CommandContent _ => false
  | _ => true
  end.

(** The [id] property, read by [doAddContent] on tool-call content; no other
    class has one. *)
Definition id_of (c : ChatResponseContent) : option string :=
  match c with
  | ToolCallContent t => ToolCallChatResponseContentImpl.id t
  | _ => None
  end.

(** [c.asString()]. The layout renders
    [this._content.map(child => child.asString && child.asString()).join(' ')]. *)
Fixpoint asString (c : ChatResponseContent) : option string :=
  match c with
  | ErrorContent e => ErrorChatResponseContentImpl.asString e
  | TextContent t => Some (TextChatResponseContentImpl.asString t)
  | MarkdownContent m => Some (MarkdownChatResponseContentImpl.asString m)
  | InformationalContent i => InformationalChatResponseContentImpl.asString i
  | CodeContent k => Some (CodeChatResponseContentImpl.asString k)
  | ToolCallContent t => Some (ToolCallChatResponseContentImpl.asString t)
  | CommandContent k => Some (CommandChatResponseContentImpl.asString k)
  | HorizontalLayoutContent children =>
      Some (JS.join " "
              (map (fun child => if hasAsString child then asString child else None)
                 children))
  | QuestionContent q => QuestionResponseContentImpl.asString q
  end.

(** [c.asDisplayString()], for the classes that define it. *)
Definition asDisplayString (c : ChatResponseContent) : option string :=
  match c with
  | TextContent t => TextChatResponseContentImpl.asDisplayString t
  | MarkdownContent m => MarkdownChatResponseContentImpl.asDisplayString m
  | ToolCallContent t => Some (ToolCallChatResponseContentImpl.asDisplayString t)
  | HorizontalLayoutContent _ => asString c
  | _ => None
  end.

(** [this.merge(next)]: the new [this] and the returned boolean. [None] when
    the class of [this] has no [merge], and when [next] is not of the class
    that the signature of [merge] asks for; [doAddContent] calls [merge]
    only on two elements of the same kind. The layout takes any content:
    the children of a layout are spliced in, anything else becomes one more
    child. The question's [merge()] reads nothing. *)
Definition merge (this next : ChatResponseContent)
  : option (ChatResponseContent * bool) :=
  match this, next with
  | TextContent a, TextContent b =>
      let '(a', ok) := TextChatResponseContentImpl.merge a b in Some (TextContent a', ok)
  | MarkdownContent a, MarkdownContent b =>
      let '(a', ok) := MarkdownChatResponseContentImpl.merge a b in
      Some (MarkdownContent a', ok)
  | InformationalContent a, InformationalContent b =>
      let '(a', ok) := InformationalChatResponseContentImpl.merge a b in
      Some (InformationalContent a', ok)
  | CodeContent a, CodeContent b =>
      let '(a', ok) := CodeChatResponseContentImpl.merge a b in Some (CodeContent a', ok)
  | ToolCallContent a, ToolCallContent b =>
      let '(a', ok) := ToolCallChatResponseContentImpl.merge a b in
      Some (ToolCallContent a', ok)
  | HorizontalLayoutContent children, _ =>
      Some (HorizontalLayoutContent
              (children ++
                 match next with
                 | HorizontalLayoutContent more => more
                 | _ => [next]
                 end), true)
  | QuestionContent q, _ =>
      let '(q', ok) := QuestionResponseContentImpl.merge q in Some (QuestionContent q', ok)
  | _, _ => None
  end.

End ChatResponseContent.

(** *** Type guards of the content interfaces *)

(** [TextChatResponseContent.is]: kind [text] with a [content] of type
    string. [content] reads that property. *)
Module TextChatResponseContent.
Definition is_ (c : ChatResponseContent) : bool :=
  match c with
  | TextContent _ => true
  | _ => false
  end.

Definition content (c : ChatResponseContent) : option string :=
  match c with
  | TextContent t => Some (TextChatResponseContentImpl.content t)
  | _ => None
  end.
End TextChatResponseContent.

(** [ToolCallChatResponseContent.is] looks at the kind only. *)
Module ToolCallChatResponseContent.
Definition is_ (c : ChatResponseContent) : bool :=
  String.eqb (ChatResponseContent.kind c) "toolCall".
End ToolCallChatResponseContent.

(** [HorizontalLayoutChatResponseContent.is] *)
Module HorizontalLayoutChatResponseContent.
Definition is_ (c : ChatResponseContent) : bool :=
  match c with
  | HorizontalLayoutContent _ => true
  | _ => false
  end.
End HorizontalLayoutChatResponseContent.

(** ** [ChatResponseImpl], the aggregator of one response *)

Inductive Collect := CollectAsString | CollectAsDisplayString.

(** [collect === 'asDisplayString'] *)
Definition collectsDisplay (collect : Collect) : bool :=
  match collect with
  | CollectAsDisplayString => true
  | CollectAsString => false
  end.

Module ChatResponseImpl.

(** [_onDidChangeEmitter] counts the notifications fired. The two
    representations are unset until the first update. *)
Record t := mk {
  _onDidChangeEmitter : nat;
  _content : list ChatResponseContent;
  _responseRepresentation : option string;
  _responseRepresentationForDisplay : option string
}.

Definition new : t :=
  {| _onDidChangeEmitter := 0;
     _content := [];
     _responseRepresentation := None;
     _responseRepresentationForDisplay := None |}.

Definition content (this : t) : list ChatResponseContent := _content this.

(** The callback of [content.map(...)] in [responseRepresentationsToString].
    The last case is the one that warns on the console. *)
Definition representation (collect : Collect) (responseContent : ChatResponseContent)
  : option string :=
  if collectsDisplay collect && ChatResponseContent.hasDisplayString responseContent
  then ChatResponseContent.asDisplayString responseContent
  else if ChatResponseContent.hasAsString responseContent
  then ChatResponseContent.asString responseContent
  else if TextChatResponseContent.is_ responseContent
  then TextChatResponseContent.content responseContent
  else None.

(** The predicate of [.filter(text => text !== undefined && text !== '')]. *)
Definition keep (text : option string) : bool :=
  match text with
  | None => false
  | Some s => negb (String.eqb s "")
  end.

Definition responseRepresentationsToString
  (content : list ChatResponseContent) (collect : Collect) : string :=
  JS.join (JS.LF +:+ JS.LF) (List.filter keep (map (representation collect) content)).

Definition _updateResponseRepresentation (this : t) : t :=
  {| _onDidChangeEmitter := _onDidChangeEmitter this;
     _content := _content this;
     _responseRepresentation :=
       Some (responseRepresentationsToString (_content this) CollectAsString);
     _responseRepresentationForDisplay :=
       Some (responseRepresentationsToString (content this) CollectAsDisplayString) |}.

Definition fire (this : t) : t :=
  {| _onDidChangeEmitter := S (_onDidChangeEmitter this);
     _content := _content this;
     _responseRepresentation := _responseRepresentation this;
     _responseRepresentationForDisplay := _responseRepresentationForDisplay this |}.

Definition set_content (this : t) (content : list ChatResponseContent) : t :=
  {| _onDidChangeEmitter := _onDidChangeEmitter this;
     _content := content;
     _responseRepresentation := _responseRepresentation this;
     _responseRepresentationForDisplay := _responseRepresentationForDisplay this |}.

(** The predicate of [this._content.find(...)] in [doAddContent]. *)
Definition fitting (nextContent c : ChatResponseContent) : Prop :=
  ToolCallChatResponseContent.is_ c = true
  ∧ ChatResponseContent.id_of c = ChatResponseContent.id_of nextContent.

#[global] Instance fitting_dec nextContent c : Decision (fitting nextContent c).
Proof. unfold fitting. apply _. Defined.

(** The content sequence that [doAddContent] leaves. *)
Definition doAddContent_content
  (content : list ChatResponseContent) (nextContent : ChatResponseContent)
  : list ChatResponseContent :=
  if ToolCallChatResponseContent.is_ nextContent
     && bool_decide (ChatResponseContent.id_of nextContent ≠ None)
  then
    match list_find (fitting nextContent) content with
    | Some (i, fittingTool) =>
        match ChatResponseContent.merge fittingTool nextContent with
        | Some (merged, _) => <[i := merged]> content
        | None => content
        end
    | None => content ++ [nextContent]
    end
  else
    match last content with
    | Some lastElement =>
        if String.eqb (ChatResponseContent.kind lastElement)
             (ChatResponseContent.kind nextContent)
           && ChatResponseContent.hasMerge lastElement
        then
          match ChatResponseContent.merge lastElement nextContent with
          | Some (merged, mergeSuccess) =>
              let content' := <[length content - 1 := merged]> content in
              if mergeSuccess then content' else content' ++ [nextContent]
          | None => content
          end
        else content ++ [nextContent]
    | None => content ++ [nextContent]
    end.

Definition doAddContent (this : t) (nextContent : ChatResponseContent) : t :=
  _updateResponseRepresentation
    (set_content this (doAddContent_content (_content this) nextContent)).

Definition addContents (this : t) (contents : list ChatResponseContent) : t :=
  fire (fold_left doAddContent contents this).

Definition addContent (this : t) (nextContent : ChatResponseContent) : t :=
  fire (doAddContent this nextContent).

Definition responseContentChanged (this : t) : t :=
  fire (_updateResponseRepresentation this).

(** A public call on the aggregator, and a sequence of them. *)
Inductive Call :=
  | AddContent (nextContent : ChatResponseContent)
  | AddContents (contents : list ChatResponseContent)
  | ResponseContentChanged.

Definition call (this : t) (c : Call) : t :=
  match c with
  | AddContent nextContent => addContent this nextContent
  | AddContents contents => addContents this contents
  | ResponseContentChanged => responseContentChanged this
  end.

Definition calls (this : t) (cs : list Call) : t := fold_left call cs this.

Definition asString (this : t) : option string := _responseRepresentation this.

Definition asDisplayString (this : t) : option string :=
  _responseRepresentationForDisplay this.

End ChatResponseImpl.

(** *** The flattening as the specification words it

    Each element yields its string rendering: the result of its
    plain-string capability, else the raw text of a plain-text element, else
    nothing. Renderings that are [undefined] or empty are left out, and the
    remaining ones are joined in order with a blank line between two of
    them. *)
Module Flattening.

Definition blankLine : string := JS.LF +:+ JS.LF.

Definition rendering (c : ChatResponseContent) : option string :=
  if ChatResponseContent.hasAsString c then ChatResponseContent.asString c
  else match c with
       | TextContent t => Some (TextChatResponseContentImpl.content t)
       | _ => None
       end.

Definition nonEmpty (text : option string) : option string :=
  match text with
  | Some s => if decide (s = "") then None else Some s
  | None => None
  end.

Fixpoint joinWithBlankLines (texts : list string) : string :=
  match texts with
  | [] => ""
  | s :: rest =>
      match rest with
      | [] => s
      | _ :: _ => s +:+ blankLine +:+ joinWithBlankLines rest
      end
  end.

Definition flatten (content : list ChatResponseContent) : string :=
  joinWithBlankLines (omap (fun c => nonEmpty (rendering c)) content).

End Flattening.


(** ** [MutableChatResponseModel], the life cycle of one response *)

(** A stored progress message. [addProgressMessage] and
    [updateProgressMessage] copy the properties of their argument as they
    are, so each property can come to hold [undefined]. *)
Record ChatProgressMessage := {
  progress_id : option string;
  progress_status : option string;
  progress_show : option string;
  progress_content : option string
}.

Module MutableChatResponseModel.

(** [_onDidChangeEmitter] counts the notifications fired. The constructor
    assigns neither [_isError] nor [_errorObject]: both start [undefined]. *)
Record t := mk {
  _onDidChangeEmitter : nat;
  _id : string;
  _requestId : string;
  _progressMessages : list ChatProgressMessage;
  _response : ChatResponseImpl.t;
  _isComplete : bool;
  _isWaitingForInput : bool;
  _agentId : option string;
  _isError : option bool;
  _errorObject : option string;
  _cancellationToken : CancellationTokenSource.t
}.

(** [uuid] stands for the result of [generateUuid()]. *)
Definition new (uuid requestId : string) (agentId : option string) : t :=
  {| _onDidChangeEmitter := 0;
     _id := uuid;
     _requestId := requestId;
     _progressMessages := [];
     _response := ChatResponseImpl.new;
     _isComplete := false;
     _isWaitingForInput := false;
     _agentId := agentId;
     _isError := None;
     _errorObject := None;
     _cancellationToken := CancellationTokenSource.new |}.

Definition response (this : t) : ChatResponseImpl.t := _response this.

Definition isComplete (this : t) : bool := _isComplete this.

Definition isCanceled (this : t) : bool :=
  CancellationTokenSource.isCancellationRequested (_cancellationToken this).

Definition isWaitingForInput (this : t) : bool := _isWaitingForInput this.

Definition isError (this : t) : option bool := _isError this.

Definition errorObject (this : t) : option string := _errorObject this.

Definition complete (this : t) : t :=
  {| _onDidChangeEmitter := S (_onDidChangeEmitter this);
     _id := _id this;
     _requestId := _requestId this;
     _progressMessages := _progressMessages this;
     _response := _response this;
     _isComplete := true;
     _isWaitingForInput := false;
     _agentId := _agentId this;
     _isError := _isError this;
     _errorObject := _errorObject this;
     _cancellationToken := _cancellationToken this |}.

Definition cancel (this : t) : t :=
  {| _onDidChangeEmitter := S (_onDidChangeEmitter this);
     _id := _id this;
     _requestId := _requestId this;
     _progressMessages := _progressMessages this;
     _response := _response this;
     _isComplete := true;
     _isWaitingForInput := false;
     _agentId := _agentId this;
     _isError := _isError this;
     _errorObject := _errorObject this;
     _cancellationToken := CancellationTokenSource.cancel (_cancellationToken this) |}.

Definition waitForInput (this : t) : t :=
  {| _onDidChangeEmitter := S (_onDidChangeEmitter this);
     _id := _id this;
     _requestId := _requestId this;
     _progressMessages := _progressMessages this;
     _response := _response this;
     _isComplete := _isComplete this;
     _isWaitingForInput := true;
     _agentId := _agentId this;
     _isError := _isError this;
     _errorObject := _errorObject this;
     _cancellationToken := _cancellationToken this |}.

Definition stopWaitingForInput (this : t) : t :=
  {| _onDidChangeEmitter := S (_onDidChangeEmitter this);
     _id := _id this;
     _requestId := _requestId this;
     _progressMessages := _progressMessages this;
     _response := _response this;
     _isComplete := _isComplete this;
     _isWaitingForInput := false;
     _agentId := _agentId this;
     _isError := _isError this;
     _errorObject := _errorObject this;
     _cancellationToken := _cancellationToken this |}.

Definition error (this : t) (e : string) : t :=
  {| _onDidChangeEmitter := S (_onDidChangeEmitter this);
     _id := _id this;
     _requestId := _requestId this;
     _progressMessages := _progressMessages this;
     _response := _response this;
     _isComplete := true;
     _isWaitingForInput := false;
     _agentId := _agentId this;
     _isError := Some true;
     _errorObject := Some e;
     _cancellationToken := _cancellationToken this |}.

Definition set_progressMessages (this : t) (messages : list ChatProgressMessage)
  (fired : nat) : t :=
  {| _onDidChangeEmitter := fired;
     _id := _id this;
     _requestId := _requestId this;
     _progressMessages := messages;
     _response := _response this;
     _isComplete := _isComplete this;
     _isWaitingForInput := _isWaitingForInput this;
     _agentId := _agentId this;
     _isError := _isError this;
     _errorObject := _errorObject this;
     _cancellationToken := _cancellationToken this |}.

Definition overrideAgentId (this : t) (agentId : string) : t :=
  {| _onDidChangeEmitter := _onDidChangeEmitter this;
     _id := _id this;
     _requestId := _requestId this;
     _progressMessages := _progressMessages this;
     _response := _response this;
     _isComplete := _isComplete this;
     _isWaitingForInput := _isWaitingForInput this;
     _agentId := Some agentId;
     _isError := _isError this;
     _errorObject := _errorObject this;
     _cancellationToken := _cancellationToken this |}.

(** The predicate of [this._progressMessages.find(...)]. The id looked for is
    [undefined] when [addProgressMessage] passes on a message whose [id] is
    present with that value. *)
Definition hasId (id : option string) (message : ChatProgressMessage) : Prop :=
  progress_id message = id.

#[global] Instance hasId_dec id message : Decision (hasId id message).
Proof. unfold hasId. apply _. Defined.

Definition getProgressMessage (this : t) (id : option string)
  : option ChatProgressMessage :=
  snd <$> list_find (hasId id) (_progressMessages this).

(** [Object.assign(progressMessage, message)] for a [message] whose [id]
    property is [id] and whose properties [status], [show] and [content]
    are optional. *)
Definition assign (progressMessage : ChatProgressMessage) (id : option string)
  (status show content : JS.Property string) : ChatProgressMessage :=
  {| progress_id := id;
     progress_status := JS.spread (progress_status progressMessage) status;
     progress_show := JS.spread (progress_show progressMessage) show;
     progress_content := JS.spread (progress_content progressMessage) content |}.

(** The message found is an object of the array: assigning to it changes the
    array at the place where it was found. *)
Definition updateProgressMessage (this : t) (id : option string)
  (status show content : JS.Property string) : t :=
  match list_find (hasId id) (_progressMessages this) with
  | Some (i, progressMessage) =>
      set_progressMessages this
        (<[i := assign progressMessage id status show content]> (_progressMessages this))
        (S (_onDidChangeEmitter this))
  | None => this
  end.

(** [addProgressMessage(message)] for a message with the required [content]
    and the optional properties [id], [status] and [show]. [uuid] stands
    for the result of [generateUuid()], asked for only when [message.id] is
    nullish. The result is the response and the message returned.

    [id] is [message.id ?? generateUuid()]; [given] is the id property of
    [{ id, ...message }], where a present [message.id] wins. The message
    returned in the first case is the object found under [id]: it holds what
    [updateProgressMessage] assigned when the update went to that same
    object, and what it held before otherwise. *)
Definition addProgressMessage (this : t) (uuid : string) (content : string)
  (id status show : JS.Property string) : t * ChatProgressMessage :=
  let given := JS.spread (Some (default uuid (JS.read id))) id in
  let id := Some (default uuid (JS.read id)) in
  match getProgressMessage this id with
  | Some existingMessage =>
      (updateProgressMessage this given status show (JS.present (Some content)),
       if decide (given = id)
       then assign existingMessage given status show (JS.present (Some content))
       else existingMessage)
  | None =>
      let newMessage :=
        {| progress_id := given;
           progress_status :=
             JS.spread (Some (default "inProgress" (JS.read status))) status;
           progress_show :=
             JS.spread (Some (default "untilFirstContent" (JS.read show))) show;
           progress_content := Some content |} in
      (set_progressMessages this (_progressMessages this ++ [newMessage])
         (S (_onDidChangeEmitter this)),
       newMessage)
  end.

(** A call of a method that changes the response, and a sequence of them. *)
Inductive Call :=
  | Complete
  | Cancel
  | Error (e : string)
  | WaitForInput
  | StopWaitingForInput
  | OverrideAgentId (agentId : string)
  | AddProgressMessage (uuid content : string) (id status show : JS.Property string)
  | UpdateProgressMessage (id : string) (status show content : JS.Property string).

Definition call (this : t) (c : Call) : t :=
  match c with
  | Complete => complete this
  | Cancel => cancel this
  | Error e => error this e
  | WaitForInput => waitForInput this
  | StopWaitingForInput => stopWaitingForInput this
  | OverrideAgentId agentId => overrideAgentId this agentId
  | AddProgressMessage uuid content id status show =>
      (addProgressMessage this uuid content id status show).1
  | UpdateProgressMessage id status show content =>
      updateProgressMessage this (Some id) status show content
  end.

Definition calls (this : t) (cs : list Call) : t := fold_left call cs this.

End MutableChatResponseModel.

Module ErrorChatResponseModel.
(** [super(requestId, agentId); this.error(error)] *)
Definition new (uuid requestId : string) (e : string) (agentId : option string)
  : MutableChatResponseModel.t :=
  MutableChatResponseModel.error (MutableChatResponseModel.new uuid requestId agentId) e.
End ErrorChatResponseModel.

(** ** Requests *)

Record ChatRequest := { request_text : string; request_displayText : option string }.

Module MutableChatRequestModel.

(** The request with its one response. The back reference [_session], the
    parsed message beyond its [request], the context and the data bag are
    read by none of the methods below and are left out. *)
Record t := mk {
  _id : string;
  _request : ChatRequest;
  _response : MutableChatResponseModel.t;
  _agentId : option string
}.

(** [uuid] and [responseUuid] stand for the two results of [generateUuid()],
    the id of the request and the id of its response. *)
Definition new (uuid responseUuid : string) (request : ChatRequest)
  (agentId : option string) : t :=
  {| _id := uuid;
     _request := request;
     _response := MutableChatResponseModel.new responseUuid uuid agentId;
     _agentId := agentId |}.

Definition id (this : t) : string := _id this.

Definition response (this : t) : MutableChatResponseModel.t := _response this.

(** A method of the response called through [request.response]. *)
Definition onResponse (this : t)
  (f : MutableChatResponseModel.t → MutableChatResponseModel.t) : t :=
  {| _id := _id this;
     _request := _request this;
     _response := f (_response this);
     _agentId := _agentId this |}.

Definition cancel (this : t) : t := onResponse this MutableChatResponseModel.cancel.

End MutableChatRequestModel.

Module ChatRequestModel.

(** [response.isComplete || response.isCanceled || response.isError], where
    an [isError] that was never assigned is falsy. *)
Definition isInProgress (request : option MutableChatRequestModel.t) : bool :=
  match request with
  | None => false
  | Some request =>
      let response := MutableChatRequestModel.response request in
      negb (MutableChatResponseModel.isComplete response
            || MutableChatResponseModel.isCanceled response
            || match MutableChatResponseModel.isError response with
               | Some b => b
               | None => false
               end)
  end.

End ChatRequestModel.

(** ** Change sets *)

Module ChangeSetElement.
Inductive State := pending | applied | discarded.

Inductive EditType := add | modify | delete.

(** The data bag and the asynchronous operations of an element are stored
    and handed back, never inspected, and are left out. *)
Record t := mk {
  uri : URI.t;
  name : option string;
  icon : option string;
  additionalInfo : option string;
  state : option State;
  type : option EditType
}.
End ChangeSetElement.

(** Modelled from the spec: [Emitter<void>] of [@theia/core], the "registered
    listener" channel of a change set. Registering a listener returns a
    [Disposable] that removes this registration; [fire] notifies the
    registered listeners "in registration order, synchronously". A
    registration is named by a token; [fired] counts the calls of [fire].

    A registered listener is kept as what it does when it is called:
    [conversationListener] is the closure that [MutableChatModel.setChangeSet]
    registers, which fires [updateChangeSet] on the conversation;
    [otherListener] is any other function, which does nothing to the
    conversation. *)
Module Emitter.
Inductive Listener := conversationListener | otherListener.

Record t := mk {
  callbacks : list (nat * Listener);
  nextToken : nat;
  fired : nat
}.

Definition new : t := {| callbacks := []; nextToken := 0; fired := 0 |}.

(** [emitter.event(listener)]: the emitter with the listener registered, and
    the token its [Disposable] holds. *)
Definition event (this : t) (listener : Listener) : t * nat :=
  ({| callbacks := callbacks this ++ [(nextToken this, listener)];
      nextToken := S (nextToken this);
      fired := fired this |}, nextToken this).

(** [disposable.dispose()] for the registration [token]. *)
Definition dispose (this : t) (token : nat) : t :=
  {| callbacks := List.filter (fun r => negb (Nat.eqb r.1 token)) (callbacks this);
     nextToken := nextToken this;
     fired := fired this |}.

Definition fire (this : t) : t :=
  {| callbacks := callbacks this;
     nextToken := nextToken this;
     fired := S (fired this) |}.

(** The tokens name registrations one to one: a token handed out is larger
    than every token handed out before. *)
Definition fresh (this : t) : Prop :=
  Forall (λ r, r.1 < nextToken this) (callbacks this).

Definition isConversation (registration : nat * Listener) : bool :=
  match registration.2 with
  | conversationListener => true
  | otherListener => false
  end.

(** The registrations of the conversation's listener, in order. *)
Definition ofConversation (this : t) : list (nat * Listener) :=
  List.filter isConversation (callbacks this).
End Emitter.

Module ChangeSetImpl.

Record t := mk {
  _onDidChangeEmitter : Emitter.t;
  title : string;
  _elements : list ChangeSetElement.t
}.

Definition getElements (this : t) : list ChangeSetElement.t := _elements this.

(** [this.onDidChange(listener)]: the change set with the listener
    registered, and the token of the [Disposable]. *)
Definition onDidChange (this : t) (listener : Emitter.Listener) : t * nat :=
  let '(e, token) := Emitter.event (_onDidChangeEmitter this) listener in
  ({| _onDidChangeEmitter := e; title := title this; _elements := _elements this |},
   token).

Definition notifyChange (this : t) : t :=
  {| _onDidChangeEmitter := Emitter.fire (_onDidChangeEmitter this);
     title := title this;
     _elements := _elements this |}.

Definition set_elements (this : t) (elements : list ChangeSetElement.t) : t :=
  {| _onDidChangeEmitter := _onDidChangeEmitter this;
     title := title this;
     _elements := elements |}.

Definition addElements (this : t) (elements : list ChangeSetElement.t) : t :=
  notifyChange (set_elements this (_elements this ++ elements)).

Definition addElement (this : t) (element : ChangeSetElement.t) : t :=
  addElements this [element].

Definition new (title : string) (elements : list ChangeSetElement.t) : t :=
  addElements {| _onDidChangeEmitter := Emitter.new; title := title; _elements := [] |}
    elements.

(** The predicate of [this._elements.findIndex(...)] in [replaceElement]. *)
Definition sameUri (element e : ChangeSetElement.t) : Prop :=
  URI.toString (ChangeSetElement.uri e) = URI.toString (ChangeSetElement.uri element).

#[global] Instance sameUri_dec element e : Decision (sameUri element e).
Proof. unfold sameUri. apply _. Defined.

Definition replaceElement (this : t) (element : ChangeSetElement.t) : t * bool :=
  match list_find (sameUri element) (_elements this) with
  | None => (this, false)
  | Some (index, _) =>
      (notifyChange (set_elements this (<[index := element]> (_elements this))), true)
  end.

Definition addOrReplaceElement (this : t) (element : ChangeSetElement.t) : t :=
  let '(this', replaced) := replaceElement this element in
  if replaced then this' else addElement this' element.

(** [this._elements.splice(index, 1)] for an integer [index]. *)
Definition removeElement (this : t) (index : Z) : t :=
  notifyChange
    (set_elements this
       (base.delete (JS.spliceStart (length (_elements this)) index) (_elements this))).

End ChangeSetImpl.

(** ** [MutableChatModel], the conversation and its active change set *)

(** A [ChangeSetImpl] is an object with an identity: the model and its
    events refer to it by reference. *)
Definition ref := nat.

Inductive ChatRequestRemovalReason := removal | resend | adoption.

(** [ChatChangeEvent]. Requests and responses are named by their ids. The
    [changeSet] of an [updateChangeSet] event is [this._changeSet!], read
    when the listener runs. *)
Module ChatChangeEvent.
Inductive t :=
  | addRequest (request : string)
  | addResponse (response : string)
  | removeRequest (requestId : string) (responseId : option string)
      (reason : ChatRequestRemovalReason)
  | setChangeSet (changeSet : ref)
  | deleteChangeSet
  | updateChangeSet (changeSet : option ref)
  | removeChangeSet (changeSet : ref).

(** The [kind] property of an event. *)
Definition kind (e : t) : string :=
  match e with
  | addRequest _ => "addRequest"
  | addResponse _ => "addResponse"
  | removeRequest _ _ _ => "removeRequest"
  | setChangeSet _ => "setChangeSet"
  | deleteChangeSet => "deleteChangeSet"
  | updateChangeSet _ => "updateChangeSet"
  | removeChangeSet _ => "removeChangeSet"
  end.

(** [ChatChangeEvent.isChangeSetEvent] *)
Definition isChangeSetEvent (event : t) : bool :=
  String.eqb (kind event) "setChangeSet"
  || String.eqb (kind event) "deleteChangeSet"
  || String.eqb (kind event) "removeChangeSet"
  || String.eqb (kind event) "updateChangeSet".
End ChatChangeEvent.

Module MutableChatModel.

(** [_onDidChangeEmitter] is the list of the events fired, oldest first.
    [_requests] keeps the requests by their ids. [_changeSetListener] is the
    [Disposable] of the last subscription: the change set subscribed to and
    the token of the registration. *)
Record t := mk {
  _onDidChangeEmitter : list ChatChangeEvent.t;
  _requests : list string;
  _id : string;
  _changeSetListener : option (ref * nat);
  _changeSet : option ref
}.

Definition new (uuid : string) : t :=
  {| _onDidChangeEmitter := [];
     _requests := [];
     _id := uuid;
     _changeSetListener := None;
     _changeSet := None |}.

(** The model together with the change-set objects it can refer to. A
    reference names an object of the store; on a reference that names none,
    a method has no object to act on and leaves the store as it is. *)
Record state := mkState {
  this : t;
  changeSets : gmap ref ChangeSetImpl.t
}.

Definition changeSet (s : state) : option ref := _changeSet (this s).

Definition fire (m : t) (e : ChatChangeEvent.t) : t :=
  {| _onDidChangeEmitter := _onDidChangeEmitter m ++ [e];
     _requests := _requests m;
     _id := _id m;
     _changeSetListener := _changeSetListener m;
     _changeSet := _changeSet m |}.

Definition set_changeSet (m : t) (changeSet : option ref) : t :=
  {| _onDidChangeEmitter := _onDidChangeEmitter m;
     _requests := _requests m;
     _id := _id m;
     _changeSetListener := _changeSetListener m;
     _changeSet := changeSet |}.

Definition set_changeSetListener (m : t) (listener : option (ref * nat)) : t :=
  {| _onDidChangeEmitter := _onDidChangeEmitter m;
     _requests := _requests m;
     _id := _id m;
     _changeSetListener := listener;
     _changeSet := _changeSet m |}.

Definition set_emitter (c : ChangeSetImpl.t) (e : Emitter.t) : ChangeSetImpl.t :=
  {| ChangeSetImpl._onDidChangeEmitter := e;
     ChangeSetImpl.title := ChangeSetImpl.title c;
     ChangeSetImpl._elements := ChangeSetImpl._elements c |}.

(** [this._changeSetListener?.dispose()] *)
Definition disposeListener (s : state) : state :=
  match _changeSetListener (this s) with
  | None => s
  | Some (cs, token) =>
      {| this := this s;
         changeSets :=
           alter (fun c => set_emitter c
                             (Emitter.dispose (ChangeSetImpl._onDidChangeEmitter c) token))
             cs (changeSets s) |}
  end.

(** [changeSet.onDidChange(listener)] for the listener of [setChangeSet]. *)
Definition subscribe (s : state) (cs : ref) : state :=
  match changeSets s !! cs with
  | None => s
  | Some c =>
      let '(e, token) :=
        Emitter.event (ChangeSetImpl._onDidChangeEmitter c) Emitter.conversationListener in
      {| this := set_changeSetListener (this s) (Some (cs, token));
         changeSets := <[cs := set_emitter c e]> (changeSets s) |}
  end.

Definition setChangeSet (s : state) (changeSet : option ref) : state :=
  let s1 := {| this := set_changeSet (this s) changeSet; changeSets := changeSets s |} in
  match _changeSet (this s1) with
  | None =>
      let s2 := disposeListener s1 in
      {| this := fire (this s2) ChatChangeEvent.deleteChangeSet;
         changeSets := changeSets s2 |}
  | Some cs =>
      let s2 := {| this := fire (this s1) (ChatChangeEvent.setChangeSet cs);
                   changeSets := changeSets s1 |} in
      subscribe s2 cs
  end.

Definition removeChangeSet (s : state) : state :=
  match _changeSet (this s) with
  | Some oldChangeSet =>
      let m := set_changeSet (this s) None in
      {| this := fire m (ChatChangeEvent.removeChangeSet oldChangeSet);
         changeSets := changeSets s |}
  | None => s
  end.

(** The listener that [setChangeSet] registers. *)
Definition changeSetListener (m : t) : t :=
  fire m (ChatChangeEvent.updateChangeSet (_changeSet m)).

(** What calling one registered listener does to the conversation. *)
Definition runListener (m : t) (registration : nat * Emitter.Listener) : t :=
  match registration.2 with
  | Emitter.conversationListener => changeSetListener m
  | Emitter.otherListener => m
  end.

(** The change set [cs] calls its [notifyChange()]: its emitter fires, and
    every listener registered on it runs, in registration order. *)
Definition notifyChange (s : state) (cs : ref) : state :=
  match changeSets s !! cs with
  | None => s
  | Some c =>
      {| this :=
           fold_left runListener
             (Emitter.callbacks (ChangeSetImpl._onDidChangeEmitter c)) (this s);
         changeSets := <[cs := ChangeSetImpl.notifyChange c]> (changeSets s) |}
  end.

Definition getRequests (s : state) : list string := _requests (this s).

Definition isEmpty (s : state) : bool := Nat.eqb (length (_requests (this s))) 0.

(** [addRequest]: the conversation with the new request, and the request
    returned. [uuid] and [responseUuid] stand for the ids generated for the
    request and for its response. *)
Definition addRequest (s : state) (uuid responseUuid : string) (request : ChatRequest)
  (agentId : option string) : state * MutableChatRequestModel.t :=
  let requestModel := MutableChatRequestModel.new uuid responseUuid request agentId in
  let m :=
    {| _onDidChangeEmitter := _onDidChangeEmitter (this s);
       _requests := _requests (this s) ++ [MutableChatRequestModel.id requestModel];
       _id := _id (this s);
       _changeSetListener := _changeSetListener (this s);
       _changeSet := _changeSet (this s) |} in
  ({| this := fire m (ChatChangeEvent.addRequest (MutableChatRequestModel.id requestModel));
      changeSets := changeSets s |}, requestModel).

(** What can happen to a conversation: a call of one of its methods, or a
    change notification of a change set. *)
Inductive Call :=
  | AddRequest (uuid responseUuid : string) (request : ChatRequest)
      (agentId : option string)
  | SetChangeSet (changeSet : option ref)
  | RemoveChangeSet
  | NotifyChange (cs : ref).

Definition call (s : state) (c : Call) : state :=
  match c with
  | AddRequest uuid responseUuid request agentId =>
      (addRequest s uuid responseUuid request agentId).1
  | SetChangeSet changeSet => setChangeSet s changeSet
  | RemoveChangeSet => removeChangeSet s
  | NotifyChange cs => notifyChange s cs
  end.

Definition calls (s : state) (cs : list Call) : state := fold_left call cs s.

End MutableChatModel.


(** ** Sample objects

    Concrete fragments and states on which the properties below are
    exercised. *)
Module Samples.

(** The argument text [{"x":1}]. *)
Definition xArguments : string := "{" +:+ JS.DQ +:+ "x" +:+ JS.DQ +:+ ":1}".

(** [new ToolCallChatResponseContentImpl('t1', 'foo')] *)
Definition toolCallNamed : ToolCallChatResponseContentImpl.t :=
  ToolCallChatResponseContentImpl.mk (Some "t1") (Some "foo") None None None.

(** [new ToolCallChatResponseContentImpl('t1', undefined, '{"x":1}')] *)
Definition toolCallArguments : ToolCallChatResponseContentImpl.t :=
  ToolCallChatResponseContentImpl.mk (Some "t1") None (Some xArguments) None None.

(** [new ToolCallChatResponseContentImpl('t1', undefined, undefined, true, 'ok')] *)
Definition toolCallFinished : ToolCallChatResponseContentImpl.t :=
  ToolCallChatResponseContentImpl.mk (Some "t1") None None (Some true) (Some "ok").

Definition text (s : string) : ChatResponseContent :=
  TextContent (TextChatResponseContentImpl.mk s).

(** A response whose content is a text, the tool call [t1] and a text. *)
Definition responseWithToolCall : ChatResponseImpl.t :=
  ChatResponseImpl.addContents ChatResponseImpl.new
    [text "before"; ToolCallContent toolCallNamed; text "after"].

(** [new ToolCallChatResponseContentImpl('t1', 'foo', '')] *)
Definition toolCallStarted : ToolCallChatResponseContentImpl.t :=
  ToolCallChatResponseContentImpl.mk (Some "t1") (Some "foo") (Some "") None None.

(** [new ToolCallChatResponseContentImpl(undefined, undefined, '{"x":1}')] *)
Definition toolCallDelta : ToolCallChatResponseContentImpl.t :=
  ToolCallChatResponseContentImpl.mk None None (Some xArguments) None None.

(** [new CodeChatResponseContentImpl('f()', 'ts')] *)
Definition code : ChatResponseContent :=
  CodeContent (CodeChatResponseContentImpl.mk "f()" (Some "ts") None).

(** A response whose content is one text. *)
Definition responseWithText : ChatResponseImpl.t :=
  ChatResponseImpl.addContent ChatResponseImpl.new (text "a").

(** A change-set element for the resource [u], of edit type [k]. *)
Definition element (u : string) (k : ChangeSetElement.EditType) : ChangeSetElement.t :=
  ChangeSetElement.mk (URI.mk u) None None None (Some ChangeSetElement.pending) (Some k).

(** [new ChangeSetImpl('A', [a.ts, b.ts, c.ts])] *)
Definition changeSetA : ChangeSetImpl.t :=
  ChangeSetImpl.new "A"
    [element "file:///a.ts" ChangeSetElement.add;
     element "file:///b.ts" ChangeSetElement.add;
     element "file:///c.ts" ChangeSetElement.add].

(** [new ChangeSetImpl('B')] *)
Definition changeSetB : ChangeSetImpl.t := ChangeSetImpl.new "B" [].

(** A fresh conversation, with the two change sets above as the objects 0
    and 1. *)
Definition conversation : MutableChatModel.state :=
  {| MutableChatModel.this := MutableChatModel.new "chat";
     MutableChatModel.changeSets := <[0 := changeSetA]> (<[1 := changeSetB]> ∅) |}.

(** The change set [A] with a listener of someone else registered on it. *)
Definition changeSetWatched : ChangeSetImpl.t :=
  (ChangeSetImpl.onDidChange changeSetA Emitter.otherListener).1.

(** A fresh conversation, with the watched change set and [B] as the objects
    0 and 1. *)
Definition watchedConversation : MutableChatModel.state :=
  {| MutableChatModel.this := MutableChatModel.new "chat";
     MutableChatModel.changeSets := <[0 := changeSetWatched]> (<[1 := changeSetB]> ∅) |}.

(** A response that waits for input. *)
Definition waitingResponse : MutableChatResponseModel.t :=
  MutableChatResponseModel.waitForInput (MutableChatResponseModel.new "r1" "q1" None).

(** A response with the progress messages [p1] and [u2]; the second one got
    its id generated. *)
Definition responseWithProgress : MutableChatResponseModel.t :=
  (MutableChatResponseModel.addProgressMessage
     (MutableChatResponseModel.addProgressMessage
        (MutableChatResponseModel.new "r1" "q1" None)
        "u1" "Thinking" (JS.present (Some "p1")) JS.absent JS.absent).1
     "u2" "Searching" JS.absent JS.absent JS.absent).1.

(** A question with two options and no answer yet. *)
Definition question : ChatResponseContent :=
  QuestionContent
    (QuestionResponseContentImpl.mk "Proceed?"
       [QuestionResponseContentImpl.mkOption "Yes" None;
        QuestionResponseContentImpl.mkOption "No" None]
       "q1" None).

Definition chatRequest : ChatRequest :=
  {| request_text := "hello"; request_displayText := None |}.

End Samples.


(** * Properties *)

(** ** Lists *)

Section ListFacts.
Context {A : Type} (P : A → Prop) `{!∀ x, Decision (P x)}.

(** [find] returns the first element that satisfies the predicate. *)
Lemma list_find_first (before : list A) (x : A) (after : list A) :
  P x → Forall (λ y, ¬ P y) before →
  list_find P (before ++ x :: after) = Some (length before, x).
Proof.
  intros Hx Hbefore.
  rewrite list_find_app_r by (by apply list_find_None).
  simpl. rewrite decide_True by done. done.
Qed.

(** When some element satisfies the predicate, the sequence splits at the
    first one that does. *)
Lemma first_match (l : list A) (x : A) :
  x ∈ l → P x →
  ∃ before y after,
    l = before ++ y :: after ∧ P y ∧ Forall (λ z, ¬ P z) before.
Proof.
  intros Hin Hx.
  destruct (list_find_elem_of P l x Hin Hx) as [[i y] Hfind].
  apply list_find_Some in Hfind as (Hi & Hy & Hleast).
  exists (take i l), y, (drop (S i) l). split_and!; [|done|].
  - by rewrite take_drop_middle.
  - apply Forall_lookup. intros j z Hj.
    apply lookup_take_Some in Hj as [Hj Hlt]. by eapply Hleast.
Qed.

Lemma insert_middle (before : list A) (x y : A) (after : list A) :
  <[length before := y]> (before ++ x :: after) = before ++ y :: after.
Proof.
  rewrite insert_app_r_alt by lia.
  by replace (length before - length before) with 0 by lia.
Qed.

Lemma insert_last (init : list A) (x y : A) :
  <[length (init ++ [x]) - 1 := y]> (init ++ [x]) = init ++ [y].
Proof.
  rewrite length_app. simpl.
  replace (length init + 1 - 1) with (length init) by lia.
  apply insert_middle.
Qed.

End ListFacts.

(** ** The merge policy of the content classes *)

(** Two elements of one kind, the first of a class with [merge]: the call
    [this.merge(next)] is well typed and returns. *)
Lemma merge_defined (this next : ChatResponseContent) :
  ChatResponseContent.kind this = ChatResponseContent.kind next →
  ChatResponseContent.hasMerge this = true →
  is_Some (ChatResponseContent.merge this next).
Proof.
  intros Hk Hm.
  destruct this, next; simpl in *; try discriminate; eauto.
  destruct (ToolCallChatResponseContentImpl.merge _ _). eauto.
Qed.

(** A [merge] that returns [false] has left [this] as it was. *)
Lemma merge_declined (this next merged : ChatResponseContent) :
  ChatResponseContent.merge this next = Some (merged, false) → merged = this.
Proof.
  destruct this, next; simpl; try discriminate; try (intros [= <-]; reflexivity).
  unfold ToolCallChatResponseContentImpl.merge.
  repeat case_match; intros; simplify_eq; reflexivity.
Qed.

(** A tool call merged with a fragment of the same id adopts the fragment's
    [finished] and [result] and keeps its name and its arguments. *)
Lemma toolCall_merge_same_id (this next : ToolCallChatResponseContentImpl.t) :
  ToolCallChatResponseContentImpl.id next = ToolCallChatResponseContentImpl.id this →
  ToolCallChatResponseContentImpl.merge this next =
    ({| ToolCallChatResponseContentImpl._id := ToolCallChatResponseContentImpl._id this;
        ToolCallChatResponseContentImpl._name := ToolCallChatResponseContentImpl._name this;
        ToolCallChatResponseContentImpl._arguments :=
          ToolCallChatResponseContentImpl._arguments this;
        ToolCallChatResponseContentImpl._finished :=
          Some (ToolCallChatResponseContentImpl.finished next);
        ToolCallChatResponseContentImpl._result :=
          ToolCallChatResponseContentImpl.result next |}, true).
Proof.
  intros Hid. unfold ToolCallChatResponseContentImpl.merge.
  by rewrite decide_True.
Qed.

(** A tool call merged with a fragment of another id that has no name and
    carries arguments appends these arguments to its own. *)
Lemma toolCall_merge_arguments (this next : ToolCallChatResponseContentImpl.t)
    (a : string) :
  ToolCallChatResponseContentImpl.id next ≠ ToolCallChatResponseContentImpl.id this →
  ToolCallChatResponseContentImpl.name next = None →
  ToolCallChatResponseContentImpl.arguments next = Some a →
  ToolCallChatResponseContentImpl.merge this next =
    ({| ToolCallChatResponseContentImpl._id := ToolCallChatResponseContentImpl._id this;
        ToolCallChatResponseContentImpl._name := ToolCallChatResponseContentImpl._name this;
        ToolCallChatResponseContentImpl._arguments :=
          Some (JS.template (ToolCallChatResponseContentImpl._arguments this) +:+ a);
        ToolCallChatResponseContentImpl._finished :=
          ToolCallChatResponseContentImpl._finished this;
        ToolCallChatResponseContentImpl._result :=
          ToolCallChatResponseContentImpl._result this |}, true).
Proof.
  intros Hid Hname Harguments. unfold ToolCallChatResponseContentImpl.merge.
  rewrite decide_False by done. by rewrite Hname, Harguments.
Qed.

(** ** The aggregator *)

Section Aggregator.
Import ChatResponseImpl.

Lemma content_addContent (this : t) (nextContent : ChatResponseContent) :
  content (addContent this nextContent) =
    doAddContent_content (content this) nextContent.
Proof. reflexivity. Qed.

(** What [fitting] says of an element: a tool call with the id of the
    incoming fragment. *)
Lemma fitting_toolCall (f u : ToolCallChatResponseContentImpl.t) :
  fitting (ToolCallContent f) (ToolCallContent u) ↔
  ToolCallChatResponseContentImpl.id u = ToolCallChatResponseContentImpl.id f.
Proof.
  unfold fitting. simpl. split; [by intros [_ ?] | by intros ->].
Qed.

Lemma fitting_is_toolCall (nextContent c : ChatResponseContent) :
  fitting nextContent c → ∃ u, c = ToolCallContent u.
Proof.
  intros [Hk _]. destruct c; try discriminate Hk. eauto.
Qed.

Lemma not_fitting (f : ToolCallChatResponseContentImpl.t) (i : string)
    (l : list ChatResponseContent) :
  ToolCallChatResponseContentImpl.id f = Some i →
  Forall (λ c, ∀ u, c = ToolCallContent u →
                    ToolCallChatResponseContentImpl.id u ≠ Some i) l →
  Forall (λ c, ¬ fitting (ToolCallContent f) c) l.
Proof.
  intros Hf Hl. eapply Forall_impl; [exact Hl|]. intros c Hc Hfit.
  destruct (fitting_is_toolCall _ _ Hfit) as [u ->].
  apply fitting_toolCall in Hfit. apply (Hc u eq_refl). congruence.
Qed.

(** C1. A tool-call fragment that carries an id is matched against the whole
    content sequence: the first tool call with that id, wherever it stands,
    is merged with the fragment and nothing is appended, whatever the merge
    returns; when no tool call has that id the fragment is appended. *)
Theorem addContent_toolCall_with_id
    (this : t) (f : ToolCallChatResponseContentImpl.t) (i : string) :
  ToolCallChatResponseContentImpl.id f = Some i →
  (∀ before u after,
     content this = before ++ ToolCallContent u :: after →
     ToolCallChatResponseContentImpl.id u = Some i →
     Forall (λ c, ∀ v, c = ToolCallContent v →
                       ToolCallChatResponseContentImpl.id v ≠ Some i) before →
     ChatResponseContent.merge (ToolCallContent u) (ToolCallContent f) =
       Some (ToolCallContent (ToolCallChatResponseContentImpl.merge u f).1,
             (ToolCallChatResponseContentImpl.merge u f).2)
     ∧ content (addContent this (ToolCallContent f)) =
         before ++ ToolCallContent (ToolCallChatResponseContentImpl.merge u f).1 :: after
     ∧ length (content (addContent this (ToolCallContent f))) = length (content this))
  ∧ (Forall (λ c, ∀ v, c = ToolCallContent v →
                       ToolCallChatResponseContentImpl.id v ≠ Some i) (content this) →
     content (addContent this (ToolCallContent f)) = content this ++ [ToolCallContent f])
  ∧ (∀ u,
       ToolCallContent u ∈ content this →
       ToolCallChatResponseContentImpl.id u = Some i →
       ∃ before v after,
         content this = before ++ ToolCallContent v :: after
         ∧ ToolCallChatResponseContentImpl.id v = Some i
         ∧ Forall (λ c, ∀ w, c = ToolCallContent w →
                             ToolCallChatResponseContentImpl.id w ≠ Some i) before).
Proof.
  intros Hf. rewrite content_addContent. unfold doAddContent_content.
  assert (Hguard :
            ToolCallChatResponseContent.is_ (ToolCallContent f)
            && bool_decide (ChatResponseContent.id_of (ToolCallContent f) ≠ None) = true).
  { simpl. rewrite Hf. reflexivity. }
  rewrite Hguard. split_and!.
  - intros before u after Hcontent Hu Hbefore.
    assert (Hm : ChatResponseContent.merge (ToolCallContent u) (ToolCallContent f) =
       Some (ToolCallContent (ToolCallChatResponseContentImpl.merge u f).1,
             (ToolCallChatResponseContentImpl.merge u f).2)).
    { simpl. by destruct (ToolCallChatResponseContentImpl.merge u f). }
    rewrite Hcontent.
    rewrite (list_find_first _ before (ToolCallContent u) after).
    + rewrite Hm, insert_middle. split_and!; [done..|].
      rewrite !length_app. reflexivity.
    + apply fitting_toolCall. congruence.
    + by eapply not_fitting.
  - intros Hnone.
    assert (Hfind : list_find (fitting (ToolCallContent f)) (content this) = None).
    { apply list_find_None. by eapply not_fitting. }
    by rewrite Hfind.
  - intros u Hin Hu.
    destruct (first_match (fitting (ToolCallContent f)) (content this)
                (ToolCallContent u) Hin) as (before & y & after & Hsplit & Hy & Hbefore).
    { apply fitting_toolCall. congruence. }
    destruct (fitting_is_toolCall _ _ Hy) as [v ->].
    apply fitting_toolCall in Hy.
    exists before, v, after. split_and!; [done|congruence|].
    eapply Forall_impl; [exact Hbefore|].
    intros c Hc w -> Hw. apply Hc, fitting_toolCall. congruence.
Qed.

(** C3. A fragment that is not a tool call carrying an id is compared with
    the last element only: with an equal kind and a last element that
    merges, [last.merge(F)] is called, a [true] result absorbs the fragment
    and keeps the length, a [false] result appends it; with another kind, a
    last element without [merge] or an empty sequence, the fragment is
    appended. The elements before the last are never looked at. *)
Theorem addContent_compares_last (this : t) (F : ChatResponseContent) :
  ¬ (ToolCallChatResponseContent.is_ F = true ∧ ChatResponseContent.id_of F ≠ None) →
  (content this = [] → content (addContent this F) = [F])
  ∧ (∀ init lastElement,
       content this = init ++ [lastElement] →
       (ChatResponseContent.kind lastElement = ChatResponseContent.kind F →
        ChatResponseContent.hasMerge lastElement = true →
        ∃ merged mergeSuccess,
          ChatResponseContent.merge lastElement F = Some (merged, mergeSuccess)
          ∧ (mergeSuccess = true →
             content (addContent this F) = init ++ [merged]
             ∧ length (content (addContent this F)) = length (content this))
          ∧ (mergeSuccess = false →
             content (addContent this F) = init ++ [lastElement; F]))
       ∧ (ChatResponseContent.kind lastElement ≠ ChatResponseContent.kind F
          ∨ ChatResponseContent.hasMerge lastElement = false →
          content (addContent this F) = init ++ [lastElement; F])).
Proof.
  intros Hnot. rewrite content_addContent. unfold doAddContent_content.
  assert (Hguard : ToolCallChatResponseContent.is_ F
                   && bool_decide (ChatResponseContent.id_of F ≠ None) = false).
  { apply not_true_is_false. intros [? ?%bool_decide_eq_true]%andb_true_iff. tauto. }
  rewrite Hguard. split.
  - intros ->. reflexivity.
  - intros init lastElement ->. rewrite last_snoc. split.
    + intros Hkind Hmerge.
      destruct (merge_defined _ _ Hkind Hmerge) as [[merged ok] Hm].
      exists merged, ok. rewrite Hm, Hkind, String.eqb_refl, Hmerge. simpl.
      rewrite insert_last. split_and!; [done| |].
      * intros ->. split; [done|]. rewrite !length_app. reflexivity.
      * intros ->. apply merge_declined in Hm as ->.
        by rewrite <- app_assoc.
    + intros Hno.
      assert (Hcond : String.eqb (ChatResponseContent.kind lastElement)
                        (ChatResponseContent.kind F)
                      && ChatResponseContent.hasMerge lastElement = false).
      { destruct Hno as [Hk | Hm].
        - apply String.eqb_neq in Hk. by rewrite Hk.
        - rewrite Hm. apply andb_false_r. }
      rewrite Hcond. by rewrite <- app_assoc.
Qed.

End Aggregator.

Section AggregatorExamples.
Import ChatResponseImpl Samples.

Lemma addContent_toolCall_with_id_witness :
  content (addContent responseWithToolCall (ToolCallContent toolCallFinished)) =
    [text "before";
     ToolCallContent
       (ToolCallChatResponseContentImpl.mk (Some "t1") (Some "foo") None (Some true)
          (Some "ok"));
     text "after"]
  ∧ content (addContent new (ToolCallContent toolCallFinished)) =
      [ToolCallContent toolCallFinished].
Proof.
  split.
  - destruct (addContent_toolCall_with_id responseWithToolCall toolCallFinished "t1"
                eq_refl) as (Hfound & _ & _).
    destruct (Hfound [text "before"] toolCallNamed [text "after"] eq_refl eq_refl)
      as (_ & Hcontent & _).
    + repeat constructor. intros v Hv. discriminate Hv.
    + exact Hcontent.
  - destruct (addContent_toolCall_with_id new toolCallFinished "t1" eq_refl)
      as (_ & Hnone & _).
    apply Hnone. constructor.
Defined.

Lemma addContent_compares_last_witness :
  content (addContent responseWithText (text "b")) = [text "ab"]
  ∧ content (addContent new (text "b")) = [text "b"].
Proof.
  assert (Hnot : ¬ (ToolCallChatResponseContent.is_ (text "b") = true
                    ∧ ChatResponseContent.id_of (text "b") ≠ None)).
  { intros [Hkind _]. discriminate Hkind. }
  split.
  - destruct (addContent_compares_last responseWithText (text "b") Hnot) as [_ Hlast].
    destruct (Hlast [] (text "a") eq_refl) as [Hsame _].
    destruct (Hsame eq_refl eq_refl) as (merged & ok & Hm & Htrue & _).
    injection Hm as <- <-.
    destruct (Htrue eq_refl) as [Hcontent _]. exact Hcontent.
  - destruct (addContent_compares_last new (text "b") Hnot) as [Hempty _].
    exact (Hempty eq_refl).
Defined.

(** The scenario of C2 as the claim states it fails: after the fragment that
    carries the id [t1] and the arguments [{"x":1}], the single element has
    not accumulated these arguments. *)
Lemma toolCall_arguments_not_accumulated :
  ¬ ∃ u,
      content (addContent (addContent new (ToolCallContent toolCallNamed))
                 (ToolCallContent toolCallArguments)) = [ToolCallContent u]
      ∧ ToolCallChatResponseContentImpl.arguments u = Some xArguments.
Proof.
  intros (u & Hcontent & Harguments).
  vm_compute in Hcontent. injection Hcontent as <-.
  discriminate Harguments.
Qed.

(** C2, amended. The fragment with id [t1] and name [foo], then the fragment
    with id [t1], no name and the arguments [{"x":1}], leave a single
    element, whose name is [foo] and whose arguments are still absent: a
    merge on equal ids adopts the fragment's [finished] and [result] only.
    The third fragment, with id [t1], [finished] true and result [ok],
    leaves that element with [finished] true and [result] [ok]. *)
Theorem toolCall_fragments_with_same_id :
  let second :=
    addContent (addContent new (ToolCallContent toolCallNamed))
      (ToolCallContent toolCallArguments) in
  let third := addContent second (ToolCallContent toolCallFinished) in
  (∃ u, content second = [ToolCallContent u]
        ∧ ToolCallChatResponseContentImpl.name u = Some "foo"
        ∧ ToolCallChatResponseContentImpl.arguments u = None
        ∧ ToolCallChatResponseContentImpl.finished u = false
        ∧ ToolCallChatResponseContentImpl.result u = None)
  ∧ (∃ u, content third = [ToolCallContent u]
          ∧ ToolCallChatResponseContentImpl.name u = Some "foo"
          ∧ ToolCallChatResponseContentImpl.arguments u = None
          ∧ ToolCallChatResponseContentImpl.finished u = true
          ∧ ToolCallChatResponseContentImpl.result u = Some "ok").
Proof.
  split; eexists; (split; [vm_compute; reflexivity|]); repeat split.
Qed.

(** Arguments accumulate through the fragments that carry no id: they are
    merged into the last element. *)
Example toolCall_arguments_of_fragment_without_id :
  content (addContent (addContent new (ToolCallContent toolCallStarted))
             (ToolCallContent toolCallDelta)) =
    [ToolCallContent
       (ToolCallChatResponseContentImpl.mk (Some "t1") (Some "foo") (Some xArguments)
          None None)].
Proof. reflexivity. Qed.

(** Text fragments are concatenated without a separator. *)
Example text_fragments_concatenate :
  asString (addContents new [text "a"; text "b"; text "c"]) = Some "abc".
Proof. reflexivity. Qed.

(** Two text fragments and a code fragment give two elements, joined by a
    blank line. *)
Example text_then_code :
  let r := addContents new [text "a"; text "b"; code] in
  length (content r) = 2
  ∧ asString r =
      Some ("ab" +:+ JS.LF +:+ JS.LF +:+ "```ts" +:+ JS.LF +:+ "f()" +:+ JS.LF +:+ "```").
Proof. split; reflexivity. Qed.

End AggregatorExamples.

(** ** The flattened representations *)

Section Representation.
Import ChatResponseImpl.

Lemma join_fmap_Some (texts : list string) :
  JS.join Flattening.blankLine (map Some texts) = Flattening.joinWithBlankLines texts.
Proof.
  induction texts as [|s rest IH]; [reflexivity|].
  destruct rest as [|s' rest]; [reflexivity|].
  change (JS.join Flattening.blankLine (map Some (s :: s' :: rest)))
    with (s +:+ Flattening.blankLine
            +:+ JS.join Flattening.blankLine (map Some (s' :: rest))).
  by rewrite IH.
Qed.

Lemma filter_keep_nonEmpty (texts : list (option string)) :
  List.filter keep texts = map Some (omap Flattening.nonEmpty texts).
Proof.
  induction texts as [|[s|] texts IH]; [reflexivity| |exact IH].
  cbn [List.filter omap list_omap keep Flattening.nonEmpty].
  destruct (decide (s = "")) as [->|Hne]; [exact IH|].
  apply String.eqb_neq in Hne. rewrite Hne. simpl. by rewrite IH.
Qed.

Lemma omap_rendering (content : list ChatResponseContent) :
  omap Flattening.nonEmpty (map (representation CollectAsString) content) =
    omap (λ c, Flattening.nonEmpty (Flattening.rendering c)) content.
Proof.
  induction content as [|c content IH]; [reflexivity|].
  cbn [map omap list_omap]. rewrite IH. reflexivity.
Qed.

Lemma filter_keep_omap (content : list ChatResponseContent) :
  List.filter keep (map (representation CollectAsString) content) =
    map Some (omap (λ c, Flattening.nonEmpty (Flattening.rendering c)) content).
Proof. by rewrite filter_keep_nonEmpty, omap_rendering. Qed.

(** An element whose representation is dropped by the filter does not
    change the flattened string, wherever it stands. *)
Lemma dropped_element (collect : Collect) (before after : list ChatResponseContent)
    (c : ChatResponseContent) :
  keep (representation collect c) = false →
  responseRepresentationsToString (before ++ c :: after) collect =
    responseRepresentationsToString (before ++ after) collect.
Proof.
  intros Hc. unfold responseRepresentationsToString.
  rewrite !map_app, !List.filter_app. simpl. by rewrite Hc.
Qed.

(** An element whose representation passes the filter stands in the joined
    list between the representations of its neighbours. *)
Lemma kept_element (collect : Collect) (before after : list ChatResponseContent)
    (c : ChatResponseContent) :
  keep (representation collect c) = true →
  List.filter keep (map (representation collect) (before ++ c :: after)) =
    List.filter keep (map (representation collect) before)
      ++ representation collect c
      :: List.filter keep (map (representation collect) after).
Proof.
  intros Hc. rewrite map_app, List.filter_app. simpl. by rewrite Hc.
Qed.

(** [responseRepresentationsToString] collecting [asString] computes the
    flattening as the specification words it. *)
Lemma responseRepresentationsToString_flatten (content : list ChatResponseContent) :
  responseRepresentationsToString content CollectAsString = Flattening.flatten content.
Proof.
  unfold responseRepresentationsToString, Flattening.flatten.
  rewrite filter_keep_omap. apply join_fmap_Some.
Qed.

(** C4. The response of a request just added to a conversation has the empty
    content sequence. The join of the renderings of no elements is the
    empty string, and this is what [responseRepresentationsToString] and the
    flattening compute on it; but [asString()] of this response is
    [undefined]: the constructor of [ChatResponseImpl] assigns [_content]
    only, and [_responseRepresentation] is first assigned by
    [_updateResponseRepresentation], which runs when a fragment is added.
    [addContents] with no fragments leaves it [undefined]. *)
Theorem asString_of_new_response
    (s : MutableChatModel.state) (uuid responseUuid : string) (request : ChatRequest)
    (agentId : option string) :
  let response :=
    MutableChatResponseModel.response
      (MutableChatRequestModel.response
         (MutableChatModel.addRequest s uuid responseUuid request agentId).2) in
  content response = []
  ∧ responseRepresentationsToString (content response) CollectAsString = ""
  ∧ Flattening.flatten (content response) = ""
  ∧ asString response = None
  ∧ asString response ≠ Some (Flattening.flatten (content response))
  ∧ asString (addContents response []) = None.
Proof. by split_and!. Qed.

(** A tool call in a content sequence: its plain string is empty and is
    dropped from the flattening; its display string is never empty and stands
    in the display flattening between those of its neighbours. *)
Lemma toolCall_element
    (u : ToolCallChatResponseContentImpl.t) (before after : list ChatResponseContent) :
  responseRepresentationsToString (before ++ ToolCallContent u :: after)
      CollectAsString =
    responseRepresentationsToString (before ++ after) CollectAsString
  ∧ responseRepresentationsToString (before ++ ToolCallContent u :: after)
      CollectAsDisplayString =
    JS.join (JS.LF +:+ JS.LF)
      (List.filter keep (map (representation CollectAsDisplayString) before)
         ++ ChatResponseContent.asDisplayString (ToolCallContent u)
         :: List.filter keep (map (representation CollectAsDisplayString) after)).
Proof.
  split.
  - by apply dropped_element.
  - unfold responseRepresentationsToString.
    by rewrite (kept_element CollectAsDisplayString before after (ToolCallContent u)).
Qed.

(** After any sequence of calls on a new response, either nothing was
    computed yet and the content is empty, or both representations are the
    flattenings of the current content. *)
Lemma calls_current (cs : list Call) :
  let r := calls new cs in
  (content r = [] ∧ asString r = None ∧ asDisplayString r = None)
  ∨ (asString r = Some (responseRepresentationsToString (content r) CollectAsString)
     ∧ asDisplayString r =
         Some (responseRepresentationsToString (content r) CollectAsDisplayString)).
Proof.
  induction cs as [|c cs IH] using rev_ind; [by left|].
  unfold calls in *. rewrite fold_left_app. cbn [fold_left].
  set (r := fold_left call cs new) in *. simpl in IH.
  destruct c as [F|Fs|]; cbn [call].
  - by right.
  - destruct Fs as [|F Fs _] using rev_ind; [exact IH|].
    right. unfold addContents. by rewrite fold_left_app.
  - by right.
Qed.

Lemma length_append (s1 s2 : string) :
  String.length (s1 +:+ s2) = String.length s1 + String.length s2.
Proof.
  induction s1 as [|a s1 IH]; [done|].
  change (S (String.length (s1 +:+ s2)) = S (String.length s1 + String.length s2)).
  by rewrite IH.
Qed.

(** The scenario of C10 as the claim states it fails for a tool call that is
    a child of a horizontal layout. The layout joins the plain strings of its
    children with a space, for [asString()] and for [asDisplayString()]
    alike: the tool call between the texts [a] and [b] makes [asString()] of
    the response [a  b], with two spaces, where the response without the
    tool call has [a b]; and [asDisplayString()] of the response is [a  b]
    too, in which [Tool call: foo()] does not occur. *)
Lemma nested_toolCall_representations :
  let nested :=
    addContent new
      (HorizontalLayoutContent
         [Samples.text "a"; ToolCallContent Samples.toolCallNamed; Samples.text "b"]) in
  let without :=
    addContent new (HorizontalLayoutContent [Samples.text "a"; Samples.text "b"]) in
  asString nested = Some "a  b"
  ∧ asString without = Some "a b"
  ∧ asString nested ≠ asString without
  ∧ asDisplayString nested = Some "a  b"
  ∧ ChatResponseContent.asDisplayString (ToolCallContent Samples.toolCallNamed)
    = Some "Tool call: foo()"
  ∧ ¬ ∃ before after,
        asDisplayString nested = Some (before +:+ "Tool call: foo()" +:+ after).
Proof.
  split_and!; try reflexivity.
  - discriminate.
  - intros (before & after & Hdisplay).
    change (Some "a  b" = Some (before +:+ "Tool call: foo()" +:+ after)) in Hdisplay.
    injection Hdisplay as Hdisplay.
    apply (f_equal String.length) in Hdisplay.
    rewrite !length_append in Hdisplay. simpl in Hdisplay. lia.
Qed.

(** C10, amended. For every response reached from a new one by calls of
    [addContent], [addContents] and [responseContentChanged], and every tool
    call that is an element of its content sequence: the plain string of
    the tool call is empty, [asString()] of the response is the flattening
    of the content without that element, and [asDisplayString()] of the
    response has [Tool call: <name>(<arguments>)] between the display
    strings of the elements before and after it. *)
Theorem toolCall_element_representations
    (cs : list Call) (u : ToolCallChatResponseContentImpl.t)
    (before after : list ChatResponseContent) :
  content (calls new cs) = before ++ ToolCallContent u :: after →
  ChatResponseContent.asString (ToolCallContent u) = Some ""
  ∧ asString (calls new cs) =
      Some (responseRepresentationsToString (before ++ after) CollectAsString)
  ∧ asDisplayString (calls new cs) =
      Some (JS.join (JS.LF +:+ JS.LF)
              (List.filter keep (map (representation CollectAsDisplayString) before)
                 ++ Some ("Tool call: "
                            +:+ JS.template (ToolCallChatResponseContentImpl.name u)
                            +:+ "("
                            +:+ JS.nullish (ToolCallChatResponseContentImpl.arguments u) ""
                            +:+ ")")
                 :: List.filter keep
                      (map (representation CollectAsDisplayString) after))).
Proof.
  intros Hcontent.
  destruct (toolCall_element u before after) as [Hplain Hdisplay].
  destruct (calls_current cs) as [(Hempty & _)|(HasString & HasDisplayString)].
  - rewrite Hempty in Hcontent. by destruct before.
  - rewrite HasString, HasDisplayString, Hcontent, Hplain, Hdisplay.
    by split_and!.
Qed.

Lemma toolCall_element_representations_witness :
  let r :=
    calls new
      [AddContent (Samples.text "a"); AddContent (ToolCallContent Samples.toolCallNamed);
       AddContent (Samples.text "b")] in
  asString r = Some ("a" +:+ JS.LF +:+ JS.LF +:+ "b")
  ∧ asDisplayString r =
      Some ("a" +:+ JS.LF +:+ JS.LF +:+ "Tool call: foo()" +:+ JS.LF +:+ JS.LF +:+ "b").
Proof.
  destruct (toolCall_element_representations
              [AddContent (Samples.text "a");
               AddContent (ToolCallContent Samples.toolCallNamed);
               AddContent (Samples.text "b")]
              Samples.toolCallNamed [Samples.text "a"] [Samples.text "b"] eq_refl)
    as (_ & HasString & HasDisplayString).
  split; [exact HasString|exact HasDisplayString].
Defined.

End Representation.

(** ** The life cycle of a response *)

Section Lifecycle.
Import MutableChatResponseModel.

(** [complete()] on a response that is complete and does not wait for input
    changes nothing but the count of notifications. *)
Lemma complete_terminal (this : t) :
  isComplete this = true → isWaitingForInput this = false →
  isComplete (complete this) = isComplete this
  ∧ isCanceled (complete this) = isCanceled this
  ∧ isWaitingForInput (complete this) = isWaitingForInput this
  ∧ isError (complete this) = isError this.
Proof. intros -> ->. done. Qed.

Lemma complete_iter_flags (n : nat) (this : t) :
  isComplete this = true → isWaitingForInput this = false →
  isComplete (Nat.iter n complete this) = isComplete this
  ∧ isCanceled (Nat.iter n complete this) = isCanceled this
  ∧ isWaitingForInput (Nat.iter n complete this) = isWaitingForInput this
  ∧ isError (Nat.iter n complete this) = isError this.
Proof.
  intros Hc Hw. induction n as [|n IH]; [done|].
  destruct IH as (IHc & IHk & IHw & IHe).
  change (Nat.iter (S n) complete this) with (complete (Nat.iter n complete this)).
  destruct (complete_terminal (Nat.iter n complete this)) as (Hc' & Hk' & Hw' & He').
  - by rewrite IHc.
  - by rewrite IHw.
  - rewrite Hc', Hk', Hw', He'. done.
Qed.

(** C5. [cancel()] makes the response canceled and complete, clears the
    waiting flag and fires one notification; however many calls of
    [complete()] follow, the four flags read as they did after the
    cancellation. *)
Theorem cancel_is_terminal (this : t) (n : nat) :
  isCanceled (cancel this) = true
  ∧ isComplete (cancel this) = true
  ∧ isWaitingForInput (cancel this) = false
  ∧ _onDidChangeEmitter (cancel this) = S (_onDidChangeEmitter this)
  ∧ isComplete (Nat.iter n complete (cancel this)) = isComplete (cancel this)
  ∧ isCanceled (Nat.iter n complete (cancel this)) = isCanceled (cancel this)
  ∧ isWaitingForInput (Nat.iter n complete (cancel this))
      = isWaitingForInput (cancel this)
  ∧ isError (Nat.iter n complete (cancel this)) = isError (cancel this).
Proof.
  split_and!; try reflexivity;
    by apply (complete_iter_flags n (cancel this)).
Qed.

Example cancel_waiting_response :
  isWaitingForInput Samples.waitingResponse = true
  ∧ isWaitingForInput (cancel Samples.waitingResponse) = false
  ∧ isCanceled (cancel Samples.waitingResponse) = true
  ∧ isComplete (complete (cancel Samples.waitingResponse)) = true.
Proof. repeat split. Qed.

End Lifecycle.

(** ** Change sets *)

Section ChangeSets.
Import ChangeSetImpl.

(** C8. [replaceElement(e)] replaces the first element with the resource
    identifier of [e] where it stands, fires one notification and returns
    [true]; when no element has that identifier it returns [false], the
    change set is left as it was, nothing is fired, and
    [addOrReplaceElement(e)] appends [e]. *)
Theorem replaceElement_by_uri (this : t) (e : ChangeSetElement.t) :
  (∀ before old after,
     getElements this = before ++ old :: after →
     URI.toString (ChangeSetElement.uri old) = URI.toString (ChangeSetElement.uri e) →
     Forall (λ x, URI.toString (ChangeSetElement.uri x)
                  ≠ URI.toString (ChangeSetElement.uri e)) before →
     (replaceElement this e).2 = true
     ∧ getElements (replaceElement this e).1 = before ++ e :: after
     ∧ Emitter.fired (_onDidChangeEmitter (replaceElement this e).1)
       = S (Emitter.fired (_onDidChangeEmitter this))
     ∧ addOrReplaceElement this e = (replaceElement this e).1)
  ∧ (Forall (λ x, URI.toString (ChangeSetElement.uri x)
                  ≠ URI.toString (ChangeSetElement.uri e)) (getElements this) →
     replaceElement this e = (this, false)
     ∧ getElements (addOrReplaceElement this e) = getElements this ++ [e]
     ∧ Emitter.fired (_onDidChangeEmitter (addOrReplaceElement this e))
       = S (Emitter.fired (_onDidChangeEmitter this)))
  ∧ (∀ x,
       x ∈ getElements this →
       URI.toString (ChangeSetElement.uri x) = URI.toString (ChangeSetElement.uri e) →
       ∃ before old after,
         getElements this = before ++ old :: after
         ∧ URI.toString (ChangeSetElement.uri old)
           = URI.toString (ChangeSetElement.uri e)
         ∧ Forall (λ y, URI.toString (ChangeSetElement.uri y)
                        ≠ URI.toString (ChangeSetElement.uri e)) before).
Proof.
  unfold addOrReplaceElement, replaceElement, getElements. split_and!.
  - intros before old after Helements Huri Hbefore.
    rewrite Helements.
    rewrite (list_find_first (sameUri e) before old after); [|done..].
    rewrite insert_middle. done.
  - intros Hnone.
    assert (Hfind : list_find (sameUri e) (_elements this) = None)
      by (by apply list_find_None).
    rewrite Hfind. done.
  - intros x Hin Hx. exact (first_match (sameUri e) (_elements this) x Hin Hx).
Qed.

Lemma replaceElement_by_uri_witness :
  let e := Samples.element "file:///b.ts" ChangeSetElement.modify in
  let fresh := Samples.element "file:///d.ts" ChangeSetElement.add in
  getElements (replaceElement Samples.changeSetA e).1 =
    [Samples.element "file:///a.ts" ChangeSetElement.add; e;
     Samples.element "file:///c.ts" ChangeSetElement.add]
  ∧ replaceElement Samples.changeSetA fresh = (Samples.changeSetA, false)
  ∧ getElements (addOrReplaceElement Samples.changeSetA fresh) =
      getElements Samples.changeSetA ++ [fresh].
Proof.
  intros e fresh. split.
  - destruct (replaceElement_by_uri Samples.changeSetA e) as (Hfound & _ & _).
    destruct (Hfound [Samples.element "file:///a.ts" ChangeSetElement.add]
                (Samples.element "file:///b.ts" ChangeSetElement.add)
                [Samples.element "file:///c.ts" ChangeSetElement.add]
                eq_refl eq_refl) as (_ & Helements & _).
    + repeat constructor. discriminate.
    + exact Helements.
  - destruct (replaceElement_by_uri Samples.changeSetA fresh) as (_ & Hnone & _).
    destruct Hnone as (Hfalse & Happend & _).
    + repeat constructor; discriminate.
    + split; [exact Hfalse | exact Happend].
Defined.

End ChangeSets.

(** ** The active change set of a conversation *)

Section ActiveChangeSet.
Import MutableChatModel.

(** The events a conversation has fired so far. *)
Local Abbreviation events s := (_onDidChangeEmitter (this s)).

Lemma subscribe_this (s : state) (cs : ref) :
  events (subscribe s cs) = events s
  ∧ _changeSet (this (subscribe s cs)) = _changeSet (this s).
Proof.
  unfold subscribe. destruct (changeSets s !! cs) as [c|]; [|done].
  by destruct (Emitter.event _).
Qed.

Lemma disposeListener_this (s : state) : this (disposeListener s) = this s.
Proof.
  unfold disposeListener. by destruct (_changeSetListener (this s)) as [[cs token]|].
Qed.

Lemma setChangeSet_Some (s : state) (cs : ref) :
  events (setChangeSet s (Some cs)) = events s ++ [ChatChangeEvent.setChangeSet cs]
  ∧ changeSet (setChangeSet s (Some cs)) = Some cs.
Proof.
  unfold setChangeSet, changeSet. simpl.
  destruct (subscribe_this
              {| this := fire (set_changeSet (this s) (Some cs))
                           (ChatChangeEvent.setChangeSet cs);
                 changeSets := changeSets s |} cs) as [-> ->].
  done.
Qed.

Lemma setChangeSet_None (s : state) :
  events (setChangeSet s None) = events s ++ [ChatChangeEvent.deleteChangeSet]
  ∧ changeSet (setChangeSet s None) = None.
Proof.
  unfold setChangeSet, changeSet. simpl.
  by rewrite disposeListener_this.
Qed.

(** C6. [setChangeSet(A)] then [setChangeSet(B)] fire [setChangeSet] once
    each and nothing else, so never [deleteChangeSet]; [setChangeSet(undefined)]
    after them fires [deleteChangeSet] once and nothing else. *)
Theorem setChangeSet_fires (s : state) (A B : ref) :
  let s2 := setChangeSet (setChangeSet s (Some A)) (Some B) in
  events s2 =
    events s ++ [ChatChangeEvent.setChangeSet A; ChatChangeEvent.setChangeSet B]
  ∧ events (setChangeSet s2 None) = events s2 ++ [ChatChangeEvent.deleteChangeSet].
Proof.
  intros s2. split.
  - unfold s2.
    destruct (setChangeSet_Some (setChangeSet s (Some A)) B) as [-> _].
    destruct (setChangeSet_Some s A) as [-> _].
    by rewrite <- app_assoc.
  - by destruct (setChangeSet_None s2) as [-> _].
Qed.

(** C9. Without an active change set [removeChangeSet()] changes nothing
    and fires nothing; with the active change set [cs] it clears it and
    fires the one event [removeChangeSet] that carries [cs]. *)
Theorem removeChangeSet_inactive_is_noop (s : state) :
  (changeSet s = None → removeChangeSet s = s)
  ∧ (∀ cs, changeSet s = Some cs →
       changeSet (removeChangeSet s) = None
       ∧ events (removeChangeSet s) = events s ++ [ChatChangeEvent.removeChangeSet cs]
       ∧ changeSets (removeChangeSet s) = changeSets s
       ∧ _requests (this (removeChangeSet s)) = _requests (this s)).
Proof.
  unfold removeChangeSet, changeSet. split.
  - by intros ->.
  - by intros cs ->.
Qed.

Lemma removeChangeSet_inactive_is_noop_witness :
  removeChangeSet Samples.conversation = Samples.conversation
  ∧ events (removeChangeSet (setChangeSet Samples.conversation (Some 0))) =
      [ChatChangeEvent.setChangeSet 0; ChatChangeEvent.removeChangeSet 0].
Proof.
  split.
  - destruct (removeChangeSet_inactive_is_noop Samples.conversation) as [Hnone _].
    exact (Hnone eq_refl).
  - destruct (removeChangeSet_inactive_is_noop
                (setChangeSet Samples.conversation (Some 0))) as [_ Hactive].
    destruct (Hactive 0 eq_refl) as (_ & Hevents & _).
    exact Hevents.
Defined.

(** Running the listener of [setChangeSet] once per registration. *)
Lemma listeners_run (registrations : list (nat * Emitter.Listener)) (m : t) :
  _onDidChangeEmitter (fold_left runListener registrations m) =
    _onDidChangeEmitter m
      ++ replicate (length (List.filter Emitter.isConversation registrations))
           (ChatChangeEvent.updateChangeSet (_changeSet m)).
Proof.
  revert m. induction registrations as [|[token listener] registrations IH]; intros m.
  - simpl. by rewrite app_nil_r.
  - cbn [fold_left]. rewrite IH. destruct listener; [|reflexivity].
    simpl. by rewrite <- app_assoc.
Qed.

(** What [setChangeSet(cs)] does to the object [cs]: one more listener. *)
Lemma setChangeSet_subscribes (s : state) (cs : ref) (c : ChangeSetImpl.t) :
  changeSets s !! cs = Some c →
  changeSets (setChangeSet s (Some cs)) =
    <[cs := set_emitter c
              (Emitter.event (ChangeSetImpl._onDidChangeEmitter c)
                 Emitter.conversationListener).1]>
      (changeSets s).
Proof.
  intros Hc. unfold setChangeSet, subscribe. simpl. by rewrite Hc.
Qed.

(** The behaviour of the source on the scenario of C7. After
    [setChangeSet(A)] and [setChangeSet(B)] the listener registered on [A]
    by the first call is still registered: a change notification of the
    replaced change set [A] makes the conversation fire [updateChangeSet],
    carrying [B], once for the listener of [setChangeSet(A)] and once more
    for each listener that the conversation had left on [A] before. The
    listeners of others on [A] fire nothing on the conversation. *)
Theorem replaced_changeSet_still_updates
    (s : state) (A B : ref) (a b : ChangeSetImpl.t) :
  A ≠ B →
  changeSets s !! A = Some a →
  changeSets s !! B = Some b →
  let s2 := setChangeSet (setChangeSet s (Some A)) (Some B) in
  changeSet s2 = Some B
  ∧ events (notifyChange s2 A) =
      events s2
        ++ replicate
             (S (length (Emitter.ofConversation (ChangeSetImpl._onDidChangeEmitter a))))
             (ChatChangeEvent.updateChangeSet (Some B)).
Proof.
  intros Hne Ha Hb s2.
  destruct (setChangeSet_Some (setChangeSet s (Some A)) B) as [_ Hactive].
  split; [exact Hactive|].
  pose proof (setChangeSet_subscribes s A a Ha) as Hstore1.
  assert (Hb1 : changeSets (setChangeSet s (Some A)) !! B = Some b).
  { rewrite Hstore1. by rewrite lookup_insert_ne. }
  pose proof (setChangeSet_subscribes _ B b Hb1) as Hstore2.
  assert (Ha2 : changeSets s2 !! A =
                Some (set_emitter a
                        (Emitter.event (ChangeSetImpl._onDidChangeEmitter a)
                           Emitter.conversationListener).1)).
  { unfold s2. rewrite Hstore2, lookup_insert_ne by done.
    rewrite Hstore1. apply lookup_insert_eq. }
  unfold notifyChange. rewrite Ha2. cbn [this].
  rewrite listeners_run. unfold changeSet in Hactive. fold s2 in Hactive.
  rewrite Hactive. cbn [set_emitter ChangeSetImpl._onDidChangeEmitter Emitter.event fst
                        Emitter.callbacks].
  unfold Emitter.ofConversation. rewrite List.filter_app, length_app. simpl.
  by replace (length (List.filter Emitter.isConversation
                        (Emitter.callbacks (ChangeSetImpl._onDidChangeEmitter a))) + 1)
    with (S (length (List.filter Emitter.isConversation
                       (Emitter.callbacks (ChangeSetImpl._onDidChangeEmitter a)))))
    by lia.
Qed.

Lemma replaced_changeSet_still_updates_witness :
  events (notifyChange
            (setChangeSet (setChangeSet Samples.watchedConversation (Some 0)) (Some 1))
            0) =
    [ChatChangeEvent.setChangeSet 0; ChatChangeEvent.setChangeSet 1;
     ChatChangeEvent.updateChangeSet (Some 1)].
Proof.
  assert (Hne : 0 ≠ 1) by lia.
  destruct (replaced_changeSet_still_updates Samples.watchedConversation 0 1
              Samples.changeSetWatched Samples.changeSetB Hne eq_refl eq_refl)
    as [_ Hevents].
  exact Hevents.
Defined.

(** The active change set is re-fired: one [updateChangeSet] for a
    notification of [A] while [A] is active. *)
Example active_changeSet_updates :
  events (notifyChange (setChangeSet Samples.conversation (Some 0)) 0) =
    [ChatChangeEvent.setChangeSet 0; ChatChangeEvent.updateChangeSet (Some 0)].
Proof. reflexivity. Qed.

(** [setChangeSet(undefined)] disposes the listener of the change set it
    deletes: a later notification of that change set fires nothing. *)
Example deleted_changeSet_is_silent :
  events (notifyChange
            (setChangeSet (setChangeSet Samples.conversation (Some 0)) None) 0) =
    [ChatChangeEvent.setChangeSet 0; ChatChangeEvent.deleteChangeSet].
Proof. reflexivity. Qed.

End ActiveChangeSet.

(** * Further properties *)

(** ** More on the merge policy *)

(** [merge] never changes the kind of [this]. *)
Lemma merge_kind (this next merged : ChatResponseContent) (ok : bool) :
  ChatResponseContent.merge this next = Some (merged, ok) →
  ChatResponseContent.kind merged = ChatResponseContent.kind this.
Proof.
  destruct this, next; simpl; try discriminate; try (intros [= <- _]; reflexivity).
  destruct (ToolCallChatResponseContentImpl.merge _ _). intros [= <- _]. reflexivity.
Qed.

(** [merge] never changes the id of [this]. *)
Lemma merge_id_of (this next merged : ChatResponseContent) (ok : bool) :
  ChatResponseContent.merge this next = Some (merged, ok) →
  ChatResponseContent.id_of merged = ChatResponseContent.id_of this.
Proof.
  destruct this, next; simpl; try discriminate; try (intros [= <- _]; reflexivity).
  unfold ToolCallChatResponseContentImpl.merge.
  repeat case_match; intros; simplify_eq; reflexivity.
Qed.

(** ** Invariants of the aggregator *)

Section AggregatorInvariants.
Import ChatResponseImpl.

(** The two things [doAddContent] can do to the content sequence: append the
    fragment, or replace one element by its merge with the fragment. *)
Lemma doAddContent_cases (content : list ChatResponseContent) (F : ChatResponseContent) :
  (doAddContent_content content F = content ++ [F]
   ∧ (ChatResponseContent.id_of F = None ∨ Forall (λ c, ¬ fitting F c) content))
  ∨ (∃ i c merged ok,
       content !! i = Some c
       ∧ ChatResponseContent.merge c F = Some (merged, ok)
       ∧ doAddContent_content content F = <[i := merged]> content).
Proof.
  unfold doAddContent_content.
  destruct (ToolCallChatResponseContent.is_ F
            && bool_decide (ChatResponseContent.id_of F ≠ None)) eqn:Hguard.
  - apply andb_true_iff in Hguard as [HF _].
    destruct (list_find (fitting F) content) as [[i c]|] eqn:Hfind.
    + apply list_find_Some in Hfind as (Hi & [Hc _] & _).
      assert (Hk : ChatResponseContent.kind c = ChatResponseContent.kind F).
      { apply String.eqb_eq in Hc, HF. congruence. }
      assert (Hm : ChatResponseContent.hasMerge c = true).
      { destruct c; try discriminate Hc; reflexivity. }
      destruct (merge_defined c F Hk Hm) as [[merged ok] Hmerge].
      right. exists i, c, merged, ok. by rewrite Hmerge.
    + left. split; [done|]. right. by apply list_find_None in Hfind.
  - assert (Hid : ChatResponseContent.id_of F = None).
    { apply andb_false_iff in Hguard as [HF | HF].
      - destruct F; try reflexivity. discriminate HF.
      - apply bool_decide_eq_false in HF.
        by destruct (ChatResponseContent.id_of F); [destruct HF|]. }
    destruct (last content) as [lastElement|] eqn:Hlast; [|by left; auto].
    destruct (String.eqb (ChatResponseContent.kind lastElement)
                (ChatResponseContent.kind F)
              && ChatResponseContent.hasMerge lastElement) eqn:Hcond;
      [|by left; auto].
    apply andb_true_iff in Hcond as [Hk%String.eqb_eq Hm].
    destruct (merge_defined _ _ Hk Hm) as [[merged ok] Hmerge].
    rewrite Hmerge.
    apply last_Some in Hlast as [init ->].
    rewrite insert_last.
    destruct ok.
    + right. exists (length init), lastElement, merged, true.
      split_and!; [|done|by rewrite insert_middle].
      by rewrite lookup_app_r, Nat.sub_diag by lia.
    + left. apply merge_declined in Hmerge as ->. by rewrite <- app_assoc; auto.
Qed.

Lemma fmap_insert_same {A B} (g : A → B) (l : list A) (i : nat) (x y : A) :
  l !! i = Some x → g y = g x → map g (<[i := y]> l) = map g l.
Proof.
  intros Hi Hg.
  change (map g) with (fmap (M:=list) g).
  rewrite list_fmap_insert, Hg. apply list_insert_id. by rewrite list_lookup_fmap, Hi.
Qed.

Lemma omap_insert_same {A B} (g : A → option B) (l : list A) (i : nat) (x y : A) :
  l !! i = Some x → g y = g x → omap g (<[i := y]> l) = omap g l.
Proof.
  intros Hi Hg.
  rewrite <- (take_drop_middle l i x Hi) at 2.
  rewrite <- (take_drop_middle (<[i:=y]> l) i y).
  - rewrite take_insert_ge, drop_insert_lt by lia.
    rewrite !omap_app. simpl. by rewrite Hg.
  - apply list_lookup_insert_eq. by eapply lookup_lt_Some.
Qed.

(** X5. [addContent] never removes or reorders an element and never changes the
    kind of one: the sequence of kinds stays as it is when the fragment is
    merged, and grows by the kind of the fragment at the end when it is
    appended. *)
Theorem addContent_kinds (this : t) (F : ChatResponseContent) :
  map ChatResponseContent.kind (content (addContent this F)) =
    map ChatResponseContent.kind (content this)
  ∨ map ChatResponseContent.kind (content (addContent this F)) =
      map ChatResponseContent.kind (content this) ++ [ChatResponseContent.kind F].
Proof.
  rewrite content_addContent.
  destruct (doAddContent_cases (content this) F)
    as [[-> _] | (i & c & merged & ok & Hi & Hm & ->)].
  - right. by rewrite map_app.
  - left. eapply fmap_insert_same; [done|]. by eapply merge_kind.
Qed.

(** The ids of the tool calls of a content sequence, in order. *)
Local Abbreviation toolCallIds content := (omap ChatResponseContent.id_of content).

Lemma addContent_toolCallIds (this : t) (F : ChatResponseContent) :
  NoDup (toolCallIds (content this)) →
  NoDup (toolCallIds (content (addContent this F))).
Proof.
  intros Hnodup. rewrite content_addContent.
  destruct (doAddContent_cases (content this) F)
    as [[-> Hnew] | (i & c & merged & ok & Hi & Hm & ->)].
  - rewrite omap_app. simpl.
    destruct (ChatResponseContent.id_of F) as [id|] eqn:HF;
      [|by rewrite app_nil_r].
    destruct Hnew as [|Hnone]; [done|].
    apply NoDup_app. split_and!; [done| |apply NoDup_singleton].
    intros x Hx ->%list_elem_of_singleton.
    apply list_elem_of_omap in Hx as (c & Hc & Hid).
    rewrite Forall_forall in Hnone. apply (Hnone c Hc). split; [|congruence].
    destruct c; try discriminate Hid; reflexivity.
  - erewrite omap_insert_same; [done..|]. by eapply merge_id_of.
Qed.

(** X6. The tool calls of a response keep distinct ids: when no two tool calls
    of the content share an id, no sequence of [addContent],
    [addContents] and [responseContentChanged] calls makes two of them
    share one. *)
Theorem toolCall_ids_stay_distinct (this : t) (cs : list Call) :
  NoDup (toolCallIds (content this)) →
  NoDup (toolCallIds (content (calls this cs))).
Proof.
  revert this. induction cs as [|c cs IH]; intros this Hnodup; [done|].
  apply IH. destruct c as [F|Fs|]; simpl.
  - by apply addContent_toolCallIds.
  - unfold addContents.
    change (content (fire ?r)) with (content r).
    revert this Hnodup. induction Fs as [|F Fs IHFs]; intros this Hnodup; [done|].
    simpl. apply IHFs.
    by apply (addContent_toolCallIds this F).
  - done.
Qed.

Lemma toolCall_ids_stay_distinct_witness :
  NoDup
    (toolCallIds
       (content
          (calls new
             [AddContent (ToolCallContent Samples.toolCallNamed);
              AddContents [Samples.text "a"; ToolCallContent Samples.toolCallFinished];
              ResponseContentChanged]))).
Proof.
  apply (toolCall_ids_stay_distinct new). exact NoDup_nil_2.
Defined.

Lemma doAddContent_fire (r : t) (F : ChatResponseContent) :
  doAddContent (fire r) F = fire (doAddContent r F).
Proof. reflexivity. Qed.

Lemma fold_addContent (Fs : list ChatResponseContent) (r : t) :
  fold_left addContent Fs r = Nat.iter (length Fs) fire (fold_left doAddContent Fs r).
Proof.
  revert r. induction Fs as [|F Fs IH]; intros r; [reflexivity|].
  cbn [fold_left length]. rewrite IH. unfold addContent.
  assert (Hfire : ∀ Gs r', fold_left doAddContent Gs (fire r')
                           = fire (fold_left doAddContent Gs r')).
  { clear. induction Gs as [|G Gs IHG]; intros r'; [reflexivity|].
    cbn [fold_left]. by rewrite doAddContent_fire, IHG. }
  rewrite Hfire. by rewrite Nat.iter_succ_r.
Qed.

Lemma iter_fire (n : nat) (r : t) :
  content (Nat.iter n fire r) = content r
  ∧ asString (Nat.iter n fire r) = asString r
  ∧ asDisplayString (Nat.iter n fire r) = asDisplayString r
  ∧ _onDidChangeEmitter (Nat.iter n fire r) = n + _onDidChangeEmitter r.
Proof.
  induction n as [|n (IHc & IHs & IHd & IHn)]; [done|].
  change (Nat.iter (S n) fire r) with (fire (Nat.iter n fire r)).
  rewrite <- IHc, <- IHs, <- IHd. split_and!; try reflexivity.
  simpl. by rewrite IHn.
Qed.

(** X7. [addContents] leaves the content and both representations that adding
    the fragments one by one with [addContent] leaves; it fires one
    notification for the batch where the single calls fire one each. *)
Theorem addContents_batches (this : t) (Fs : list ChatResponseContent) :
  content (addContents this Fs) = content (fold_left addContent Fs this)
  ∧ asString (addContents this Fs) = asString (fold_left addContent Fs this)
  ∧ asDisplayString (addContents this Fs)
    = asDisplayString (fold_left addContent Fs this)
  ∧ _onDidChangeEmitter (addContents this Fs) = 1 + _onDidChangeEmitter this
  ∧ _onDidChangeEmitter (fold_left addContent Fs this)
    = length Fs + _onDidChangeEmitter this.
Proof.
  rewrite fold_addContent.
  destruct (iter_fire (length Fs) (fold_left doAddContent Fs this))
    as (-> & -> & -> & ->).
  split_and!; try reflexivity.
  - unfold addContents. simpl. f_equal.
    clear. revert this. induction Fs as [|F Fs IH]; intros this; [done|].
    cbn [fold_left]. by rewrite IH.
  - f_equal.
    clear. revert this. induction Fs as [|F Fs IH]; intros this; [done|].
    cbn [fold_left]. by rewrite IH.
Qed.

(** X8. The cached representations are never stale: after any sequence of calls
    on a new response, either nothing was computed yet and the content is
    empty, or [asString()] and [asDisplayString()] are the flattenings of
    the current content. *)
Theorem representations_are_current (cs : list Call) :
  let r := calls new cs in
  (content r = [] ∧ asString r = None ∧ asDisplayString r = None)
  ∨ (asString r = Some (responseRepresentationsToString (content r) CollectAsString)
     ∧ asDisplayString r =
         Some (responseRepresentationsToString (content r) CollectAsDisplayString)).
Proof. exact (calls_current cs). Qed.

Lemma content_doAddContent (r : t) (F : ChatResponseContent) :
  content (doAddContent r F) = doAddContent_content (content r) F.
Proof. reflexivity. Qed.

Lemma append_nil_r (s : string) : s +:+ "" = s.
Proof.
  induction s as [|a s IH]; [done|].
  change (String a (s +:+ "") = String a s). by f_equal.
Qed.

Lemma append_assoc (s1 s2 s3 : string) : (s1 +:+ s2) +:+ s3 = s1 +:+ (s2 +:+ s3).
Proof.
  induction s1 as [|a s1 IH]; [done|].
  change (String a ((s1 +:+ s2) +:+ s3) = String a (s1 +:+ (s2 +:+ s3))). by f_equal.
Qed.

Local Abbreviation textOf s := (TextContent (TextChatResponseContentImpl.mk s)).

(** A run of text fragments after a text is absorbed by it. *)
Lemma text_run (ts : list TextChatResponseContentImpl.t) (acc : string) (r : t) :
  content r = [textOf acc] →
  content (fold_left doAddContent (map TextContent ts) r) =
    [textOf (acc +:+ foldr String.append ""
                       (map TextChatResponseContentImpl.content ts))].
Proof.
  revert acc r. induction ts as [|x ts IH]; intros acc r Hr.
  - cbn [map fold_left foldr]. by rewrite append_nil_r.
  - cbn [map fold_left foldr].
    rewrite (IH (acc +:+ TextChatResponseContentImpl.content x)).
    + by rewrite append_assoc.
    + rewrite content_doAddContent, Hr. reflexivity.
Qed.

Lemma representation_of_one_text (s : string) (collect : Collect) :
  responseRepresentationsToString [textOf s] collect = s.
Proof.
  unfold responseRepresentationsToString.
  destruct collect; simpl; by destruct (String.eqb_spec s "") as [->|].
Qed.

(** X1. Text fragments added in one batch to a response without content become
    a single text element holding their texts concatenated in order,
    without separator; both flattened representations are that
    concatenation. *)
Theorem text_fragments_form_one_text
    (this : t) (x : TextChatResponseContentImpl.t)
    (ts : list TextChatResponseContentImpl.t) :
  content this = [] →
  let whole := foldr String.append "" (map TextChatResponseContentImpl.content (x :: ts)) in
  content (addContents this (map TextContent (x :: ts))) = [textOf whole]
  ∧ asString (addContents this (map TextContent (x :: ts))) = Some whole
  ∧ asDisplayString (addContents this (map TextContent (x :: ts))) = Some whole.
Proof.
  intros Hempty whole.
  assert (Hcontent :
            content (addContents this (map TextContent (x :: ts))) = [textOf whole]).
  { unfold addContents. change (content (fire ?r)) with (content r).
    cbn [map fold_left].
    rewrite (text_run ts (TextChatResponseContentImpl.content x)); [done|].
    rewrite content_doAddContent, Hempty. by destruct x. }
  split; [exact Hcontent|].
  assert (Hne : x :: ts ≠ []) by done.
  destruct (exists_last Hne) as (init & last & Hsplit).
  unfold asString, asDisplayString, content in *.
  revert Hcontent. rewrite Hsplit.
  unfold addContents. rewrite map_app, fold_left_app. simpl.
  intros ->. by rewrite !representation_of_one_text.
Qed.

Lemma text_fragments_form_one_text_witness :
  asString
    (addContents new
       (map TextContent
          [TextChatResponseContentImpl.mk "a"; TextChatResponseContentImpl.mk "b";
           TextChatResponseContentImpl.mk "c"])) = Some "abc".
Proof.
  destruct (text_fragments_form_one_text new (TextChatResponseContentImpl.mk "a")
              [TextChatResponseContentImpl.mk "b"; TextChatResponseContentImpl.mk "c"]
              eq_refl) as (_ & Hstring & _).
  exact Hstring.
Defined.

Local Abbreviation codeOf code language location :=
  (CodeContent (CodeChatResponseContentImpl.mk code language location)).

Lemma code_run (ks : list CodeChatResponseContentImpl.t) (acc : string)
    (language : option string) (location : option Location) (r : t) :
  content r = [codeOf acc language location] →
  content (fold_left doAddContent (map CodeContent ks) r) =
    [codeOf (acc +:+ foldr String.append "" (map CodeChatResponseContentImpl.code ks))
       language location].
Proof.
  revert acc r. induction ks as [|k ks IH]; intros acc r Hr.
  - cbn [map fold_left foldr]. by rewrite append_nil_r.
  - cbn [map fold_left foldr].
    rewrite (IH (acc +:+ CodeChatResponseContentImpl.code k)).
    + by rewrite append_assoc.
    + rewrite content_doAddContent, Hr. reflexivity.
Qed.

(** X2. Code fragments added to a response without content become a single code
    element: the code bodies are concatenated in order, and the language
    and the location are those of the first fragment, whatever the later
    fragments carry. *)
Theorem code_fragments_form_one_block
    (this : t) (k : CodeChatResponseContentImpl.t)
    (ks : list CodeChatResponseContentImpl.t) :
  content this = [] →
  content (addContents this (map CodeContent (k :: ks))) =
    [codeOf (foldr String.append "" (map CodeChatResponseContentImpl.code (k :: ks)))
       (CodeChatResponseContentImpl._language k)
       (CodeChatResponseContentImpl._location k)].
Proof.
  intros Hempty. unfold addContents. change (content (fire ?r)) with (content r).
  cbn [map fold_left].
  rewrite (code_run ks (CodeChatResponseContentImpl.code k)
             (CodeChatResponseContentImpl._language k)
             (CodeChatResponseContentImpl._location k)); [done|].
  rewrite content_doAddContent, Hempty. by destruct k.
Qed.

Lemma code_fragments_form_one_block_witness :
  content
    (addContents new
       (map CodeContent
          [CodeChatResponseContentImpl.mk "f(" (Some "ts") None;
           CodeChatResponseContentImpl.mk ")" (Some "js") None])) =
    [codeOf "f()" (Some "ts") None].
Proof.
  exact (code_fragments_form_one_block new
           (CodeChatResponseContentImpl.mk "f(" (Some "ts") None)
           [CodeChatResponseContentImpl.mk ")" (Some "js") None] eq_refl).
Defined.

Lemma layout_run (ls : list (list ChatResponseContent)) (acc : list ChatResponseContent)
    (r : t) :
  content r = [HorizontalLayoutContent acc] →
  content (fold_left doAddContent (map HorizontalLayoutContent ls) r) =
    [HorizontalLayoutContent (acc ++ concat ls)].
Proof.
  revert acc r. induction ls as [|l ls IH]; intros acc r Hr.
  - cbn [map fold_left concat]. by rewrite app_nil_r.
  - cbn [map fold_left concat].
    rewrite (IH (acc ++ l)).
    + by rewrite <- app_assoc.
    + rewrite content_doAddContent, Hr. reflexivity.
Qed.

(** X3. Horizontal layouts added to a response without content become a single
    layout that holds the children of all of them in order: a layout is
    never nested into the layout it is merged with. *)
Theorem layouts_form_one_layout
    (this : t) (l : list ChatResponseContent) (ls : list (list ChatResponseContent)) :
  content this = [] →
  content (addContents this (map HorizontalLayoutContent (l :: ls))) =
    [HorizontalLayoutContent (concat (l :: ls))].
Proof.
  intros Hempty. unfold addContents. change (content (fire ?r)) with (content r).
  cbn [map fold_left]. rewrite (layout_run ls l); [done|].
  rewrite content_doAddContent, Hempty. reflexivity.
Qed.

Lemma layouts_form_one_layout_witness :
  content
    (addContents new
       (map HorizontalLayoutContent [[Samples.text "a"]; [Samples.text "b"]; []])) =
    [HorizontalLayoutContent [Samples.text "a"; Samples.text "b"]].
Proof.
  exact (layouts_form_one_layout new [Samples.text "a"] [[Samples.text "b"]; []] eq_refl).
Defined.

(** X9. Error and informational elements show in neither representation: a
    content sequence made of such elements only flattens to the empty
    string, for [asString] and for [asDisplayString]. *)
Theorem errors_and_information_are_invisible
    (content : list ChatResponseContent) (collect : Collect) :
  Forall (λ c, ChatResponseContent.kind c = "error"
               ∨ ChatResponseContent.kind c = "informational") content →
  responseRepresentationsToString content collect = "".
Proof.
  intros Hall. unfold responseRepresentationsToString.
  assert (Hnone : List.filter keep (map (representation collect) content) = []).
  { induction Hall as [|c content Hc _ IH]; [done|].
    cbn [map List.filter]. rewrite IH.
    destruct c, collect; cbn in Hc; destruct Hc as [Hc|Hc]; try discriminate Hc;
      reflexivity. }
  by rewrite Hnone.
Qed.

Lemma errors_and_information_are_invisible_witness :
  responseRepresentationsToString
    [ErrorContent (ErrorChatResponseContentImpl.mk "failed");
     InformationalContent (InformationalChatResponseContentImpl.new "note")]
    CollectAsDisplayString = "".
Proof.
  apply errors_and_information_are_invisible.
  constructor; [by left|]. constructor; [by right|]. constructor.
Defined.

(** X10. A command never renders to the empty string (an empty command id falls
    back to the label of the callback, an empty label to the text
    [command]), so a command element always stands in both
    representations, between its neighbours. *)
Theorem command_is_always_visible
    (k : CommandChatResponseContentImpl.t) (collect : Collect)
    (before after : list ChatResponseContent) :
  CommandChatResponseContentImpl.asString k ≠ ""
  ∧ List.filter keep (map (representation collect) (before ++ CommandContent k :: after)) =
      List.filter keep (map (representation collect) before)
        ++ Some (CommandChatResponseContentImpl.asString k)
        :: List.filter keep (map (representation collect) after).
Proof.
  assert (Hne : CommandChatResponseContentImpl.asString k ≠ "").
  { unfold CommandChatResponseContentImpl.asString, JS.truthy.
    destruct (CommandChatResponseContentImpl.command k) as [c|];
      [destruct (String.eqb_spec c "")|];
      (destruct (CommandChatResponseContentImpl.customCallback k) as [l|];
       [destruct (String.eqb_spec l "")|]); simpl; done. }
  split; [exact Hne|].
  rewrite (kept_element collect before after (CommandContent k)).
  - by destruct collect.
  - apply String.eqb_neq in Hne. destruct collect; simpl; by rewrite Hne.
Qed.

(** X4. An error, a command or a question is never merged: whatever the
    content sequence holds, the fragment is appended and the elements
    before it stay as they are. *)
Theorem unmergeable_fragments_are_appended (this : t) (F : ChatResponseContent) :
  ChatResponseContent.kind F = "error"
  ∨ ChatResponseContent.kind F = "command"
  ∨ ChatResponseContent.kind F = "question" →
  content (addContent this F) = content this ++ [F].
Proof.
  intros HF. rewrite content_addContent. unfold doAddContent_content.
  assert (Hguard : ToolCallChatResponseContent.is_ F = false).
  { destruct F; try reflexivity; cbn in HF; destruct HF as [HF|[HF|HF]];
      discriminate HF. }
  rewrite Hguard. cbn [andb].
  destruct (last (content this)) as [lastElement|] eqn:Hlast; [|done].
  destruct (String.eqb_spec (ChatResponseContent.kind lastElement)
              (ChatResponseContent.kind F)) as [Hk|]; [|done].
  cbn [andb].
  apply last_Some in Hlast as [init Hinit]. rewrite Hinit.
  destruct lastElement, F; cbn in HF, Hk; try discriminate Hk;
    try (destruct HF as [HF|[HF|HF]]; discriminate HF); try done.
  cbn [ChatResponseContent.hasMerge ChatResponseContent.merge
         QuestionResponseContentImpl.merge].
  by rewrite insert_last.
Qed.

Lemma unmergeable_fragments_are_appended_witness :
  content (addContent (addContent new Samples.question) Samples.question) =
    [Samples.question; Samples.question].
Proof.
  exact (unmergeable_fragments_are_appended (addContent new Samples.question)
           Samples.question (or_intror (or_intror eq_refl))).
Defined.

End AggregatorInvariants.

(** ** Invariants of a change set *)

Section ChangeSetInvariants.
Import ChangeSetImpl.

Local Abbreviation uriOf e := (URI.toString (ChangeSetElement.uri e)).

(** After [addOrReplaceElement(e)], [findIndex] stops at [e] itself. *)
Lemma addOrReplaceElement_finds (this : t) (e : ChangeSetElement.t) :
  ∃ i, list_find (sameUri e) (getElements (addOrReplaceElement this e)) = Some (i, e).
Proof.
  unfold addOrReplaceElement, replaceElement, getElements.
  destruct (list_find (sameUri e) (_elements this)) as [[i old]|] eqn:Hfind; simpl.
  - exists i. apply list_find_Some in Hfind as (Hi & Hold & Hleast).
    apply list_find_Some. split_and!.
    + apply list_lookup_insert_eq. by eapply lookup_lt_Some.
    + done.
    + intros j y Hj Hlt. rewrite list_lookup_insert_ne in Hj by lia. by eapply Hleast.
  - exists (length (_elements this)).
    apply list_find_first; [done|]. by apply list_find_None in Hfind.
Qed.

(** X11. [addOrReplaceElement(e)] keeps the sequence of resource identifiers when
    the identifier of [e] is already there and appends [e] when it is not;
    afterwards [e] is an element, and identifiers that were pairwise
    distinct are still pairwise distinct. *)
Theorem addOrReplaceElement_uris (this : t) (e : ChangeSetElement.t) :
  (uriOf e ∈ map (λ x, uriOf x) (getElements this) →
   map (λ x, uriOf x) (getElements (addOrReplaceElement this e))
   = map (λ x, uriOf x) (getElements this))
  ∧ (uriOf e ∉ map (λ x, uriOf x) (getElements this) →
     getElements (addOrReplaceElement this e) = getElements this ++ [e])
  ∧ e ∈ getElements (addOrReplaceElement this e)
  ∧ (NoDup (map (λ x, uriOf x) (getElements this)) →
     NoDup (map (λ x, uriOf x) (getElements (addOrReplaceElement this e)))).
Proof.
  assert (Hin : e ∈ getElements (addOrReplaceElement this e)).
  { destruct (addOrReplaceElement_finds this e) as [i Hfind].
    apply list_find_Some in Hfind as (Hi & _). by eapply list_elem_of_lookup_2. }
  unfold addOrReplaceElement, replaceElement, getElements in *.
  destruct (list_find (sameUri e) (_elements this)) as [[i old]|] eqn:Hfind;
    simpl in *.
  - apply list_find_Some in Hfind as (Hi & Hold & _).
    assert (Hmap : map (λ x, uriOf x) (<[i:=e]> (_elements this))
                   = map (λ x, uriOf x) (_elements this)).
    { change (map ?g) with (fmap (M:=list) g).
      rewrite list_fmap_insert. apply list_insert_id.
      rewrite list_lookup_fmap, Hi. simpl. by rewrite Hold. }
    split_and!; [done| |done|by rewrite Hmap].
    intros Hnot. destruct Hnot. rewrite <- Hold.
    apply list_elem_of_In, in_map_iff. exists old. split; [done|].
    apply list_elem_of_In. by eapply list_elem_of_lookup_2.
  - apply list_find_None in Hfind.
    assert (Hnot : uriOf e ∉ map (λ x, uriOf x) (_elements this)).
    { intros Hex. apply list_elem_of_In, in_map_iff in Hex as (x & Hx & Hxin).
      rewrite Forall_forall in Hfind. apply (Hfind x); [by apply list_elem_of_In|done]. }
    split_and!; [done|done|done|].
    intros Hnodup. rewrite map_app. apply NoDup_app. split_and!; [done| |].
    + intros u Hu ->%list_elem_of_singleton. done.
    + apply NoDup_singleton.
Qed.

Lemma addOrReplaceElement_uris_witness :
  let e := Samples.element "file:///b.ts" ChangeSetElement.modify in
  let fresh := Samples.element "file:///d.ts" ChangeSetElement.add in
  map (λ x, uriOf x) (getElements (addOrReplaceElement Samples.changeSetA e))
  = ["file:///a.ts"; "file:///b.ts"; "file:///c.ts"]
  ∧ getElements (addOrReplaceElement Samples.changeSetA fresh)
    = getElements Samples.changeSetA ++ [fresh]
  ∧ NoDup (map (λ x, uriOf x) (getElements (addOrReplaceElement Samples.changeSetA fresh))).
Proof.
  intros e fresh. split_and!.
  - destruct (addOrReplaceElement_uris Samples.changeSetA e) as (Hsame & _).
    apply Hsame. apply (bool_decide_unpack _). vm_compute. exact I.
  - destruct (addOrReplaceElement_uris Samples.changeSetA fresh) as (_ & Hnew & _).
    apply Hnew. apply (bool_decide_unpack _). vm_compute. exact I.
  - destruct (addOrReplaceElement_uris Samples.changeSetA fresh) as (_ & _ & _ & Hnodup).
    apply Hnodup. apply (bool_decide_unpack _). vm_compute. exact I.
Defined.

(** X12. [addOrReplaceElement(e)] called twice leaves the elements that one call
    leaves; each of the two calls fires one notification. *)
Theorem addOrReplaceElement_twice (this : t) (e : ChangeSetElement.t) :
  getElements (addOrReplaceElement (addOrReplaceElement this e) e)
  = getElements (addOrReplaceElement this e)
  ∧ Emitter.fired (_onDidChangeEmitter (addOrReplaceElement (addOrReplaceElement this e) e))
    = 2 + Emitter.fired (_onDidChangeEmitter this).
Proof.
  destruct (addOrReplaceElement_finds this e) as [i Hfind].
  assert (Hfired : Emitter.fired (_onDidChangeEmitter (addOrReplaceElement this e))
                   = S (Emitter.fired (_onDidChangeEmitter this))).
  { unfold addOrReplaceElement, replaceElement.
    by destruct (list_find (sameUri e) (_elements this)) as [[? ?]|]. }
  revert Hfind Hfired. generalize (addOrReplaceElement this e). intros once Hfind Hfired.
  unfold addOrReplaceElement, replaceElement, getElements in *. rewrite Hfind. simpl.
  rewrite Hfired. split; [|done].
  apply list_insert_id. by apply list_find_Some in Hfind as (Hi & _).
Qed.

(** X13. [removeElement(index)] for an integer index always fires one
    notification. An index within the sequence removes that element, an
    index at or beyond the length removes nothing, a negative index counts
    from the end, and a negative index beyond the start removes the first
    element. *)
Theorem removeElement_index (this : t) (index : Z) :
  let n := Z.of_nat (length (getElements this)) in
  Emitter.fired (_onDidChangeEmitter (removeElement this index))
  = S (Emitter.fired (_onDidChangeEmitter this))
  ∧ ((0 ≤ index < n)%Z →
     getElements (removeElement this index)
     = take (Z.to_nat index) (getElements this)
         ++ drop (S (Z.to_nat index)) (getElements this))
  ∧ ((n ≤ index)%Z → getElements (removeElement this index) = getElements this)
  ∧ ((- n ≤ index < 0)%Z →
     getElements (removeElement this index)
     = take (Z.to_nat (n + index)) (getElements this)
         ++ drop (S (Z.to_nat (n + index))) (getElements this))
  ∧ ((index < - n)%Z → getElements (removeElement this index) = drop 1 (getElements this)).
Proof.
  intros n. unfold removeElement, getElements in *. simpl.
  unfold JS.spliceStart. fold n. split_and!.
  - reflexivity.
  - intros Hi. rewrite (proj2 (Z.ltb_ge index 0)) by lia.
    rewrite Nat.min_l by lia. apply delete_take_drop.
  - intros Hi. rewrite (proj2 (Z.ltb_ge index 0)) by lia.
    rewrite Nat.min_r by lia.
    rewrite delete_take_drop, firstn_all, drop_ge by lia. apply app_nil_r.
  - intros Hi. rewrite (proj2 (Z.ltb_lt index 0)) by lia.
    rewrite Z.max_l by lia. apply delete_take_drop.
  - intros Hi. rewrite (proj2 (Z.ltb_lt index 0)) by lia.
    rewrite Z.max_r by lia. by rewrite delete_take_drop.
Qed.

Lemma removeElement_index_witness :
  getElements (removeElement Samples.changeSetA (-1)) =
    [Samples.element "file:///a.ts" ChangeSetElement.add;
     Samples.element "file:///b.ts" ChangeSetElement.add]
  ∧ getElements (removeElement Samples.changeSetA 1) =
      [Samples.element "file:///a.ts" ChangeSetElement.add;
       Samples.element "file:///c.ts" ChangeSetElement.add]
  ∧ getElements (removeElement Samples.changeSetA 3) = getElements Samples.changeSetA
  ∧ getElements (removeElement Samples.changeSetA (-7)) =
      [Samples.element "file:///b.ts" ChangeSetElement.add;
       Samples.element "file:///c.ts" ChangeSetElement.add].
Proof.
  split_and!.
  - destruct (removeElement_index Samples.changeSetA (-1)) as (_ & _ & _ & Hneg & _).
    apply Hneg. cbn. lia.
  - destruct (removeElement_index Samples.changeSetA 1) as (_ & Hin & _).
    apply Hin. cbn. lia.
  - destruct (removeElement_index Samples.changeSetA 3) as (_ & _ & Hge & _).
    apply Hge. cbn. lia.
  - destruct (removeElement_index Samples.changeSetA (-7)) as (_ & _ & _ & _ & Hlow).
    apply Hlow. cbn. lia.
Defined.

End ChangeSetInvariants.

(** ** Invariants of a conversation *)

Section ConversationInvariants.
Import MutableChatModel.

Local Abbreviation events s := (_onDidChangeEmitter (this s)).
Local Abbreviation listeners c := (Emitter.callbacks (ChangeSetImpl._onDidChangeEmitter c)).
Local Abbreviation ofConversation c :=
  (Emitter.ofConversation (ChangeSetImpl._onDidChangeEmitter c)).

Lemma listeners_run_this (registrations : list (nat * Emitter.Listener)) (m : t) :
  _changeSet (fold_left runListener registrations m) = _changeSet m
  ∧ _requests (fold_left runListener registrations m) = _requests m.
Proof.
  revert m. induction registrations as [|[token listener] registrations IH];
    intros m; [done|].
  cbn [fold_left]. destruct (IH (runListener m (token, listener))) as [-> ->].
  by destruct listener.
Qed.

(** X14. A change notification of a change set makes the conversation fire one
    [updateChangeSet] for each registration of its own listener on that
    change set, and none for the listeners of others; each event carries the
    change set that is active in the conversation at that moment, whichever
    change set sent the notification. The active change set and the requests
    stay as they are. *)
Theorem notifyChange_carries_active_changeSet
    (s : state) (cs : ref) (c : ChangeSetImpl.t) :
  changeSets s !! cs = Some c →
  events (notifyChange s cs) =
    events s ++ replicate (length (ofConversation c))
                  (ChatChangeEvent.updateChangeSet (changeSet s))
  ∧ changeSet (notifyChange s cs) = changeSet s
  ∧ getRequests (notifyChange s cs) = getRequests s
  ∧ changeSets (notifyChange s cs) = <[cs := ChangeSetImpl.notifyChange c]> (changeSets s).
Proof.
  intros Hc. unfold notifyChange, changeSet, getRequests. rewrite Hc. cbn [this changeSets].
  rewrite listeners_run.
  destruct (listeners_run_this (listeners c) (this s)) as [-> ->]. done.
Qed.

Lemma notifyChange_carries_active_changeSet_witness :
  events
    (notifyChange
       (setChangeSet (setChangeSet Samples.watchedConversation (Some 1)) (Some 0)) 0)
  = [ChatChangeEvent.setChangeSet 1; ChatChangeEvent.setChangeSet 0;
     ChatChangeEvent.updateChangeSet (Some 0)].
Proof.
  destruct (notifyChange_carries_active_changeSet
              (setChangeSet (setChangeSet Samples.watchedConversation (Some 1)) (Some 0))
              0
              (set_emitter Samples.changeSetWatched
                 (Emitter.event (ChangeSetImpl._onDidChangeEmitter Samples.changeSetWatched)
                    Emitter.conversationListener).1)
              eq_refl) as (Hevents & _).
  exact Hevents.
Defined.

Lemma fresh_emitter :
  Emitter.fresh Emitter.new
  ∧ (∀ e listener, Emitter.fresh e → Emitter.fresh (Emitter.event e listener).1)
  ∧ (∀ e token, Emitter.fresh e → Emitter.fresh (Emitter.dispose e token))
  ∧ (∀ e, Emitter.fresh e → Emitter.fresh (Emitter.fire e)).
Proof.
  unfold Emitter.fresh. split_and!.
  - constructor.
  - intros e listener He. simpl. apply Forall_app. split.
    + eapply Forall_impl; [exact He|]. simpl. lia.
    + repeat constructor.
  - intros e token He. simpl.
    apply Forall_forall. intros k Hk%list_elem_of_In%filter_In.
    rewrite Forall_forall in He. apply He, list_elem_of_In, Hk.
  - intros e He. exact He.
Qed.

(** Disposing the registration just made gives the listeners back as they
    were. *)
Lemma dispose_event (e : Emitter.t) (listener : Emitter.Listener) :
  Emitter.fresh e →
  Emitter.callbacks
    (Emitter.dispose (Emitter.event e listener).1 (Emitter.event e listener).2)
  = Emitter.callbacks e.
Proof.
  unfold Emitter.fresh. intros He. simpl.
  rewrite List.filter_app. simpl. rewrite Nat.eqb_refl. simpl. rewrite app_nil_r.
  induction He as [|[k l] ks Hk _ IH]; [done|].
  simpl in *. rewrite IH.
  by destruct (Nat.eqb_spec k (Emitter.nextToken e)) as [->|]; [lia|].
Qed.

(** X15. [setChangeSet(A)] followed by [setChangeSet(undefined)] leaves the
    listeners and the elements of [A] as they were before: the subscription
    made by the first call is disposed by the second. A later notification
    of [A] makes the conversation fire only for the registrations of its
    own listener that [A] held before, and nothing for the listeners of
    others. *)
Theorem setChangeSet_then_delete_unsubscribes
    (s : state) (A : ref) (a : ChangeSetImpl.t) :
  changeSets s !! A = Some a →
  Emitter.fresh (ChangeSetImpl._onDidChangeEmitter a) →
  let s2 := setChangeSet (setChangeSet s (Some A)) None in
  (∃ a', changeSets s2 !! A = Some a'
         ∧ listeners a' = listeners a
         ∧ ChangeSetImpl.getElements a' = ChangeSetImpl.getElements a)
  ∧ events (notifyChange s2 A) =
      events s2 ++ replicate (length (ofConversation a))
                     (ChatChangeEvent.updateChangeSet None).
Proof.
  intros Ha Hfresh s2.
  pose proof (setChangeSet_subscribes s A a Ha) as Hstore1.
  assert (Hlistener :
            _changeSetListener (this (setChangeSet s (Some A)))
            = Some (A, (Emitter.event (ChangeSetImpl._onDidChangeEmitter a)
                          Emitter.conversationListener).2)).
  { unfold setChangeSet, subscribe. simpl. by rewrite Ha. }
  assert (Ha2 : changeSets s2 !! A =
                Some (set_emitter a
                        (Emitter.dispose
                           (Emitter.event (ChangeSetImpl._onDidChangeEmitter a)
                              Emitter.conversationListener).1
                           (Emitter.event (ChangeSetImpl._onDidChangeEmitter a)
                              Emitter.conversationListener).2))).
  { unfold s2, setChangeSet at 1, disposeListener. cbn [this changeSets set_changeSet
      _changeSet _changeSetListener].
    rewrite Hlistener. cbn [changeSets]. rewrite Hstore1.
    rewrite lookup_alter_eq, lookup_insert_eq. reflexivity. }
  split.
  - eexists. split; [exact Ha2|]. split; [|reflexivity].
    cbn [set_emitter ChangeSetImpl._onDidChangeEmitter]. by apply dispose_event.
  - destruct (setChangeSet_None (setChangeSet s (Some A))) as [_ Hnone].
    fold s2 in Hnone. unfold changeSet in Hnone.
    unfold notifyChange. rewrite Ha2. cbn [this].
    rewrite listeners_run, Hnone.
    cbn [set_emitter ChangeSetImpl._onDidChangeEmitter].
    by rewrite dispose_event.
Qed.

Lemma setChangeSet_then_delete_unsubscribes_witness :
  events
    (notifyChange (setChangeSet (setChangeSet Samples.watchedConversation (Some 0)) None) 0)
  = [ChatChangeEvent.setChangeSet 0; ChatChangeEvent.deleteChangeSet].
Proof.
  assert (Hfresh : Emitter.fresh (ChangeSetImpl._onDidChangeEmitter Samples.changeSetWatched)).
  { constructor; [cbn; lia|constructor]. }
  destruct (setChangeSet_then_delete_unsubscribes Samples.watchedConversation 0
              Samples.changeSetWatched eq_refl Hfresh) as (_ & Hevents).
  exact Hevents.
Defined.

(** X16. [removeChangeSet()] clears the active change set and fires
    [removeChangeSet], and disposes nothing: a later notification of the
    removed change set still makes the conversation fire [updateChangeSet],
    carrying no change set, once for the listener that [setChangeSet]
    registered and once more for each listener that the conversation had
    left on that change set before. *)
Theorem removeChangeSet_keeps_subscription
    (s : state) (A : ref) (a : ChangeSetImpl.t) :
  changeSets s !! A = Some a →
  let s2 := removeChangeSet (setChangeSet s (Some A)) in
  changeSet s2 = None
  ∧ events s2 =
      events s ++ [ChatChangeEvent.setChangeSet A; ChatChangeEvent.removeChangeSet A]
  ∧ events (notifyChange s2 A) =
      events s2 ++ replicate (S (length (ofConversation a)))
                     (ChatChangeEvent.updateChangeSet None).
Proof.
  intros Ha s2.
  destruct (setChangeSet_Some s A) as [Hevents Hactive].
  assert (Hs2 : s2 = {| this := fire (set_changeSet (this (setChangeSet s (Some A))) None)
                                  (ChatChangeEvent.removeChangeSet A);
                        changeSets := changeSets (setChangeSet s (Some A)) |}).
  { unfold s2, removeChangeSet. unfold changeSet in Hactive. by rewrite Hactive. }
  rewrite Hs2. split_and!.
  - reflexivity.
  - cbn [this fire _onDidChangeEmitter set_changeSet]. rewrite Hevents.
    by rewrite <- app_assoc.
  - unfold notifyChange. cbn [changeSets].
    rewrite (setChangeSet_subscribes s A a Ha), lookup_insert_eq. cbn [this].
    rewrite listeners_run.
    cbn [set_emitter ChangeSetImpl._onDidChangeEmitter Emitter.event fst
           Emitter.callbacks fire set_changeSet _changeSet].
    unfold Emitter.ofConversation. rewrite List.filter_app, length_app. simpl.
    by replace (length (List.filter Emitter.isConversation (listeners a)) + 1)
      with (S (length (List.filter Emitter.isConversation (listeners a)))) by lia.
Qed.

Lemma removeChangeSet_keeps_subscription_witness :
  events
    (notifyChange (removeChangeSet (setChangeSet Samples.watchedConversation (Some 0))) 0)
  = [ChatChangeEvent.setChangeSet 0; ChatChangeEvent.removeChangeSet 0;
     ChatChangeEvent.updateChangeSet None].
Proof.
  destruct (removeChangeSet_keeps_subscription Samples.watchedConversation 0
              Samples.changeSetWatched eq_refl) as (_ & _ & Hevents).
  exact Hevents.
Defined.

(** What one call adds to the events and to the requests. *)
Lemma call_events (s : state) (c : Call) :
  ∃ evs,
    events (call s c) = events s ++ evs
    ∧ match c with
      | AddRequest uuid _ _ _ =>
          evs = [ChatChangeEvent.addRequest uuid]
          ∧ getRequests (call s c) = getRequests s ++ [uuid]
      | _ =>
          Forall (λ e, ChatChangeEvent.isChangeSetEvent e = true) evs
          ∧ getRequests (call s c) = getRequests s
      end.
Proof.
  destruct c as [uuid responseUuid request agentId|[cs|]| |cs]; cbn [call].
  - eexists. split; [reflexivity|]. done.
  - destruct (setChangeSet_Some s cs) as [-> _]. eexists. split; [reflexivity|].
    split; [by repeat constructor|].
    unfold getRequests, setChangeSet, subscribe. simpl.
    by destruct (changeSets s !! cs).
  - destruct (setChangeSet_None s) as [-> _]. eexists. split; [reflexivity|].
    split; [by repeat constructor|].
    unfold getRequests, setChangeSet. simpl. by rewrite disposeListener_this.
  - unfold removeChangeSet, getRequests.
    destruct (_changeSet (this s)) as [old|].
    + eexists. split; [reflexivity|]. split; [by repeat constructor|done].
    + exists []. by rewrite app_nil_r.
  - unfold notifyChange, getRequests.
    destruct (changeSets s !! cs) as [c|]; cbn [this].
    + rewrite listeners_run. eexists. split; [reflexivity|].
      split; [|by destruct (listeners_run_this (listeners c) (this s))].
      apply Forall_forall. by intros e ->%elem_of_replicate_inv.
    + exists []. by rewrite app_nil_r.
Qed.

Lemma filter_nil_Forall {A} (p : A → bool) (l : list A) :
  List.filter (λ x, negb (p x)) l = [] ↔ Forall (λ x, p x = true) l.
Proof.
  induction l as [|x l IH]; simpl.
  - split; [constructor|done].
  - destruct (p x) eqn:Hp; simpl.
    + rewrite IH. split; [by constructor|by inversion 1].
    + split; [done|]. inversion 1; congruence.
Qed.

(** X17. In the events of a conversation, those that are no change-set events
    are the [addRequest] events of its requests, in order; this holds after
    any sequence of [addRequest], [setChangeSet] and [removeChangeSet]
    calls and change notifications when it held before. The conversation
    is empty exactly when all its events are change-set events. *)
Theorem events_mirror_requests (s : state) (cs : list Call) :
  List.filter (λ e, negb (ChatChangeEvent.isChangeSetEvent e)) (events s)
  = map ChatChangeEvent.addRequest (getRequests s) →
  List.filter (λ e, negb (ChatChangeEvent.isChangeSetEvent e)) (events (calls s cs))
  = map ChatChangeEvent.addRequest (getRequests (calls s cs))
  ∧ (isEmpty (calls s cs) = true
     ↔ Forall (λ e, ChatChangeEvent.isChangeSetEvent e = true) (events (calls s cs))).
Proof.
  intros Hs.
  assert (Hinv : List.filter (λ e, negb (ChatChangeEvent.isChangeSetEvent e))
                   (events (calls s cs))
                 = map ChatChangeEvent.addRequest (getRequests (calls s cs))).
  { revert s Hs. induction cs as [|c cs IH]; intros s Hs; [done|].
    apply (IH (call s c)).
    destruct (call_events s c) as (evs & -> & Hc).
    rewrite List.filter_app, Hs.
    destruct c as [uuid responseUuid request agentId| | |];
      try (destruct Hc as [Hevs%filter_nil_Forall ->]; by rewrite Hevs, app_nil_r).
    destruct Hc as [-> ->]. by rewrite map_app. }
  split; [exact Hinv|].
  rewrite <- filter_nil_Forall, Hinv. unfold isEmpty, getRequests.
  destruct (_requests (this (calls s cs))); simpl; split; done.
Qed.

Lemma events_mirror_requests_witness :
  List.filter (λ e, negb (ChatChangeEvent.isChangeSetEvent e))
    (events
       (calls Samples.conversation
          [AddRequest "q1" "r1" Samples.chatRequest None; SetChangeSet (Some 0);
           NotifyChange 0; AddRequest "q2" "r2" Samples.chatRequest None;
           RemoveChangeSet]))
  = [ChatChangeEvent.addRequest "q1"; ChatChangeEvent.addRequest "q2"].
Proof.
  destruct (events_mirror_requests Samples.conversation
              [AddRequest "q1" "r1" Samples.chatRequest None; SetChangeSet (Some 0);
               NotifyChange 0; AddRequest "q2" "r2" Samples.chatRequest None;
               RemoveChangeSet] eq_refl) as [Hmirror _].
  exact Hmirror.
Defined.

End ConversationInvariants.

(** ** Invariants of a response and its progress messages *)

Section ResponseInvariants.
Import MutableChatResponseModel.

(** The disjunction that [isInProgress] negates. *)
Local Abbreviation finished r :=
  (isComplete r || isCanceled r || match isError r with Some b => b | None => false end).

Local Abbreviation terminal c :=
  (match c with Complete | Cancel | Error _ => true | _ => false end).

Lemma updateProgressMessage_flags (this : t) (id : option string)
    (status show content : JS.Property string) :
  let r := updateProgressMessage this id status show content in
  isComplete r = isComplete this ∧ isCanceled r = isCanceled this
  ∧ isError r = isError this ∧ isWaitingForInput r = isWaitingForInput this.
Proof.
  unfold updateProgressMessage.
  by destruct (list_find (hasId id) (_progressMessages this)) as [[i m]|].
Qed.

Lemma call_finished (r : t) (c : Call) :
  finished (call r c) = finished r || terminal c.
Proof.
  destruct c as [| |e| | |agentId|uuid content id status show|id status show content];
    cbn [call].
  - unfold isComplete, isCanceled, isError. simpl.
    by rewrite orb_true_r.
  - unfold isComplete, isCanceled, isError. simpl. by rewrite orb_true_r.
  - unfold isComplete, isCanceled, isError. simpl. by rewrite !orb_true_r.
  - by rewrite orb_false_r.
  - by rewrite orb_false_r.
  - by rewrite orb_false_r.
  - rewrite orb_false_r. unfold addProgressMessage.
    destruct (getProgressMessage r (Some (default uuid (JS.read id)))); cbn [fst]; [|done].
    by destruct (updateProgressMessage_flags r
                   (JS.spread (Some (default uuid (JS.read id))) id)
                   status show (JS.present (Some content)))
      as (-> & -> & -> & _).
  - rewrite orb_false_r.
    by destruct (updateProgressMessage_flags r (Some id) status show content)
      as (-> & -> & -> & _).
Qed.

(** X18. [isInProgress] under the calls on the response of a request: the
    request is in progress afterwards exactly when it was in progress
    before and none of the calls was [complete], [cancel] or [error]. No
    call makes a finished request run again, and waiting for input or
    progress messages never finish one. *)
Theorem isInProgress_after_calls (request : MutableChatRequestModel.t) (cs : list Call) :
  ChatRequestModel.isInProgress
    (Some (MutableChatRequestModel.onResponse request (λ r, calls r cs)))
  = ChatRequestModel.isInProgress (Some request)
    && forallb (λ c, negb (terminal c)) cs.
Proof.
  unfold ChatRequestModel.isInProgress, MutableChatRequestModel.onResponse,
    MutableChatRequestModel.response. cbn [MutableChatRequestModel._response].
  generalize (MutableChatRequestModel._response request). clear request.
  induction cs as [|c cs IH]; intros r.
  - cbn [calls fold_left forallb]. by rewrite andb_true_r.
  - unfold calls in *. cbn [fold_left forallb]. rewrite IH, call_finished.
    rewrite negb_orb. by rewrite andb_assoc.
Qed.

Lemma getProgressMessage_find (this : t) (id : option string) :
  match list_find (hasId id) (_progressMessages this) with
  | Some (i, m) => getProgressMessage this id = Some m
  | None => getProgressMessage this id = None
  end.
Proof.
  unfold getProgressMessage.
  by destruct (list_find (hasId id) (_progressMessages this)) as [[i m]|].
Qed.





(** X20. [updateProgressMessage] with an id that no message has returns the
    response as it is and fires nothing; otherwise it assigns the
    properties that its argument has to the first message with that id,
    where it stands, and fires once. *)
Theorem updateProgressMessage_by_id
    (this : t) (id : option string) (status show content : JS.Property string) :
  (getProgressMessage this id = None →
   updateProgressMessage this id status show content = this)
  ∧ (∀ before m after,
       _progressMessages this = before ++ m :: after →
       progress_id m = id →
       Forall (λ x, progress_id x ≠ id) before →
       _progressMessages (updateProgressMessage this id status show content)
       = before ++ assign m id status show content :: after
       ∧ _onDidChangeEmitter (updateProgressMessage this id status show content)
         = S (_onDidChangeEmitter this)).
Proof.
  unfold updateProgressMessage. split.
  - intros Hnone. pose proof (getProgressMessage_find this id) as Hget.
    destruct (list_find (hasId id) (_progressMessages this)) as [[i m]|]; [|done].
    congruence.
  - intros before m after Hsplit Hm Hbefore.
    rewrite Hsplit, (list_find_first (hasId id) before m after); [|done..].
    cbn [_progressMessages set_progressMessages _onDidChangeEmitter].
    by rewrite insert_middle.
Qed.

Lemma updateProgressMessage_by_id_witness :
  updateProgressMessage Samples.responseWithProgress (Some "p9")
    (JS.present (Some "failed")) JS.absent JS.absent
  = Samples.responseWithProgress
  ∧ map progress_status
      (_progressMessages
         (updateProgressMessage Samples.responseWithProgress (Some "u2")
            (JS.present (Some "failed")) JS.absent (JS.present None)))
    = [Some "inProgress"; Some "failed"]
  ∧ map progress_content
      (_progressMessages
         (updateProgressMessage Samples.responseWithProgress (Some "u2")
            (JS.present (Some "failed")) JS.absent (JS.present None)))
    = [Some "Thinking"; None].
Proof.
  assert (_progressMessages
            (updateProgressMessage Samples.responseWithProgress (Some "u2")
               (JS.present (Some "failed")) JS.absent (JS.present None))
          = [{| progress_id := Some "p1"; progress_status := Some "inProgress";
                progress_show := Some "untilFirstContent";
                progress_content := Some "Thinking" |};
             {| progress_id := Some "u2"; progress_status := Some "failed";
                progress_show := Some "untilFirstContent";
                progress_content := None |}]) as Hmessages.
  { destruct (updateProgressMessage_by_id Samples.responseWithProgress (Some "u2")
                (JS.present (Some "failed")) JS.absent (JS.present None)) as [_ Hknown].
    destruct (Hknown
                [{| progress_id := Some "p1"; progress_status := Some "inProgress";
                    progress_show := Some "untilFirstContent";
                    progress_content := Some "Thinking" |}]
                {| progress_id := Some "u2"; progress_status := Some "inProgress";
                   progress_show := Some "untilFirstContent";
                   progress_content := Some "Searching" |}
                [] eq_refl eq_refl) as [Hmessages _].
    - constructor; [discriminate|constructor].
    - exact Hmessages. }
  split_and!.
  - destruct (updateProgressMessage_by_id Samples.responseWithProgress (Some "p9")
                (JS.present (Some "failed")) JS.absent JS.absent) as [Hunknown _].
    exact (Hunknown eq_refl).
  - rewrite Hmessages. reflexivity.
  - rewrite Hmessages. reflexivity.
Defined.

Lemma updateProgressMessage_ids (this : t) (id : option string)
    (status show content : JS.Property string) :
  map progress_id (_progressMessages (updateProgressMessage this id status show content))
  = map progress_id (_progressMessages this).
Proof.
  unfold updateProgressMessage.
  destruct (list_find (hasId id) (_progressMessages this)) as [[i m]|] eqn:Hfind;
    [|done].
  apply list_find_Some in Hfind as (Hi & Hm & _).
  cbn [_progressMessages set_progressMessages].
  change (map ?g) with (fmap (M:=list) g).
  rewrite list_fmap_insert. apply list_insert_id.
  rewrite list_lookup_fmap, Hi. simpl. by rewrite Hm.
Qed.

(** The ids that are strings, in the order of the messages. *)
Lemma defined_ids (messages : list ChatProgressMessage) :
  omap progress_id messages = omap id (map progress_id messages).
Proof.
  induction messages as [|m messages IH]; [done|].
  cbn [omap list_omap map]. rewrite IH. by destruct (progress_id m).
Qed.

Lemma call_progress_ids (r : t) (c : Call) :
  NoDup (omap progress_id (_progressMessages r)) →
  NoDup (omap progress_id (_progressMessages (call r c))).
Proof.
  intros Hnodup.
  destruct c as [| |e| | |agentId|uuid content id status show|id status show content];
    cbn [call]; try exact Hnodup.
  - unfold addProgressMessage.
    pose proof (getProgressMessage_find r (Some (default uuid (JS.read id)))) as Hget.
    destruct (list_find (hasId (Some (default uuid (JS.read id)))) (_progressMessages r))
      as [[i m]|] eqn:Hfind; rewrite Hget; cbn [fst].
    + by rewrite defined_ids, updateProgressMessage_ids, <- defined_ids.
    + cbn [_progressMessages set_progressMessages]. rewrite omap_app.
      cbn [omap list_omap progress_id].
      destruct (JS.spread (Some (default uuid (JS.read id))) id) as [given|] eqn:Hgiven;
        [|by rewrite app_nil_r].
      apply NoDup_app. split_and!; [done| |apply NoDup_singleton].
      intros x Hx ->%list_elem_of_singleton.
      apply list_elem_of_omap in Hx as (m & Hin & Hm).
      apply list_find_None in Hfind. rewrite Forall_forall in Hfind.
      apply (Hfind m Hin). unfold hasId. rewrite Hm.
      destruct id as [|[v|]]; cbn in Hgiven |- *; congruence.
  - by rewrite defined_ids, updateProgressMessage_ids, <- defined_ids.
Qed.

(** X21. The progress messages of a response keep distinct ids, as far as
    their ids are strings, under every sequence of calls on the response.
    Messages added with [id: undefined] are stored with the id [undefined]
    and can be many. *)
Theorem progress_ids_stay_distinct (this : t) (cs : list Call) :
  NoDup (omap progress_id (_progressMessages this)) →
  NoDup (omap progress_id (_progressMessages (calls this cs))).
Proof.
  revert this. induction cs as [|c cs IH]; intros this Hnodup; [done|].
  apply IH. by apply call_progress_ids.
Qed.

Lemma progress_ids_stay_distinct_witness :
  NoDup
    (omap progress_id
       (_progressMessages
          (calls (new "r1" "q1" None)
             [AddProgressMessage "u1" "Thinking" (JS.present (Some "p1"))
                JS.absent JS.absent;
              AddProgressMessage "u2" "Still thinking" (JS.present (Some "p1"))
                JS.absent JS.absent;
              AddProgressMessage "u3" "Searching" (JS.present None)
                JS.absent JS.absent;
              WaitForInput;
              AddProgressMessage "u4" "Reading" (JS.present None)
                (JS.present None) JS.absent;
              Complete]))).
Proof.
  apply (progress_ids_stay_distinct (new "r1" "q1" None)). exact NoDup_nil_2.
Defined.

End ResponseInvariants.
